(** * Sensor fusion system: scan rasterizer, fusion loop, calibration wrapper
      and detector decoding

    A shallow embedding of [LaneKeepingSystem] (scan callback, image callback,
    fusion loop) and of [CameraDetector] (pose-solve wrapper, correspondence
    catalog, detection decoding), with the properties the specification
    states about them.

    Numbers.  The program computes on [float] and [double].  The embedding
    keeps the program's operations and the order in which it applies them,
    over an abstract carrier [F] with one operation per C++ operator or libm
    call ([FloatOps]); nothing is assumed about rounding.  Exact rationals
    give an executable instance for the examples.  An [int] is a [Z]: the
    program's integers are beam indices, vector sizes and pixel coordinates;
    where a pixel coordinate is cast or computed, its wrap-around is written
    out ([wrap_int]). *)

From Stdlib Require Import String List ZArith QArith Bool Lia.
From Stdlib Require Import Qabs Lqa.
Import ListNotations.
Close Scope Q_scope.

Set Implicit Arguments.
Unset Strict Implicit.

(* ================================================================== *)
(** ** Numbers *)

Class FloatOps (F : Type) : Type := {
  fadd : F -> F -> F;          (* a + b *)
  fmul : F -> F -> F;          (* a * b *)
  fdiv : F -> F -> F;          (* a / b *)
  fneg : F -> F;               (* -a *)
  fcos : F -> F;               (* cos(a) *)
  fsin : F -> F;               (* sin(a) *)
  of_int : Z -> F;             (* int to floating point *)
  of_lit : Q -> F;             (* a decimal literal of the source text *)
  to_int : F -> Z;             (* static_cast<int> *)
  fgtb : F -> F -> bool;       (* a > b *)
  fleb : F -> F -> bool        (* a <= b *)
}.

(** An [int] is the integer it holds, between -2^31 and 2^31 - 1;
    [wrap_int] brings the result of a cast or of an operation on [int]
    back into that range. *)
Definition wrap_int (z : Z) : Z :=
  ((z + 2147483648) mod 4294967296 - 2147483648)%Z.

(** Exact rational arithmetic, kept in lowest terms so that equal values are
    equal terms.  [cos] and [sin] are their Maclaurin polynomials of degree 4
    and 5: exact at 0, which is all the examples rely on. *)
Module QFloat.

#[local] Open Scope Q_scope.

Definition add (a b : Q) : Q := Qred (a + b).
Definition mul (a b : Q) : Q := Qred (a * b).
Definition div (a b : Q) : Q := Qred (a / b).
Definition neg (a : Q) : Q := Qred (- a).
Definition cos (a : Q) : Q :=
  Qred (1 - a * a * (1 # 2) + a * a * a * a * (1 # 24)).
Definition sin (a : Q) : Q :=
  Qred (a - a * a * a * (1 # 6) + a * a * a * a * a * (1 # 120)).
Definition trunc (a : Q) : Z := Z.quot (Qnum a) (Zpos (Qden a)).
Definition gtb (a b : Q) : bool :=
  (Qnum b * Zpos (Qden a) <? Qnum a * Zpos (Qden b))%Z.
Definition leb (a b : Q) : bool := Qle_bool a b.

Definition ops : FloatOps Q := {|
  fadd := add; fmul := mul; fdiv := div; fneg := neg;
  fcos := cos; fsin := sin;
  of_int := inject_Z; of_lit := Qred; to_int := trunc;
  fgtb := gtb; fleb := leb |}.

End QFloat.

#[global] Existing Instance QFloat.ops.

(* ================================================================== *)
(** ** Outcomes

    A C++ call either returns, reads a vector outside its bounds (undefined
    behaviour, kept as an outcome of its own), or leaves through a
    [cv::Exception]. *)

Inductive Outcome (A : Type) : Type :=
| Done (a : A)
| OutOfBounds
| CvException.

Arguments Done {A} a.
Arguments OutOfBounds {A}.
Arguments CvException {A}.

Definition bind {A B : Type} (c : Outcome A) (k : A -> Outcome B) : Outcome B :=
  match c with
  | Done a => k a
  | OutOfBounds => OutOfBounds
  | CvException => CvException
  end.

Notation "x <- c ;; k" := (bind c (fun x => k))
  (at level 61, c at next level, right associativity).

Definition returns {A : Type} (c : Outcome A) : bool :=
  match c with Done _ => true | _ => false end.

(** [v[i]] on a [std::vector] with an [int] index. *)
Definition index {A : Type} (v : list A) (i : Z) : Outcome A :=
  if (i <? 0)%Z then OutOfBounds
  else match nth_error v (Z.to_nat i) with
       | Some a => Done a
       | None => OutOfBounds
       end.

(** [for (int i = lo; i < hi; ++i) body]: [count] iterations are left and the
    loop variable is [i]. *)
Fixpoint for_loop {St : Type} (count : nat) (i : Z)
    (body : Z -> St -> Outcome St) (s : St) : Outcome St :=
  match count with
  | O => Done s
  | S count' => s' <- body i s ;; for_loop count' (i + 1)%Z body s'
  end.

Definition for_range {St : Type} (lo hi : Z)
    (body : Z -> St -> Outcome St) (s : St) : Outcome St :=
  for_loop (Z.to_nat (hi - lo)) lo body s.

(** The indices [lo, lo+1, ..., lo+n-1]. *)
Fixpoint zseq (lo : Z) (n : nat) : list Z :=
  match n with
  | O => []
  | S n' => lo :: zseq (lo + 1)%Z n'
  end.

(* ================================================================== *)
(** ** Data *)

Record Point2f (F : Type) : Type := mkPoint2f { p2x : F; p2y : F }.
Record Point3f (F : Type) : Type := mkPoint3f { p3x : F; p3y : F; p3z : F }.
Record Rect : Type := mkRect { rx : Z; ry : Z; rwidth : Z; rheight : Z }.

(** [sensor_msgs::LaserScan], the fields the callback reads. *)
Record LaserScan (F : Type) : Type := mkLaserScan {
  angle_min : F;
  angle_increment : F;
  ranges : list F
}.

(** The members of [LaneKeepingSystem] that its methods assign. *)
Record State (F Image : Type) : Type := mkState {
  mLidarCoord : list (Point2f F);
  mFrame : Image;
  mXycarSpeed : F
}.

(** The two states of the fusion loop in the specification, read off the
    test [mLidarCoord.size() == 0] at the head of the loop body. *)
Inductive Mode : Type := Idle | Fusing.

Definition mode {F Image : Type} (st : State F Image) : Mode :=
  if (length (mLidarCoord st) =? 0)%nat then Idle else Fusing.

(* ================================================================== *)
(** ** LaneKeepingSystem::scanCallback *)

Section ScanCallback.

Context {F : Type} {ops : FloatOps F} {Image : Type}.

(** The body shared by the two loops of the callback. *)
Definition scan_body (scan : LaserScan F) (i : Z) (coord : list (Point2f F))
    : Outcome (list (Point2f F)) :=
  r <- index (ranges scan) i ;;
  let theta := fadd (angle_min scan) (fmul (of_int i) (angle_increment scan)) in
  let x := fmul r (fcos theta) in
  let y := fmul r (fsin theta) in
  let point := mkPoint2f x y in
  Done (coord ++ [point]).

Definition scanCallback (st : State F Image) (scan : LaserScan F)
    : Outcome (State F Image) :=
  let lStart := 0%Z in
  let lEnd := (126 + 1)%Z in
  let rStart := 378%Z in
  let rEnd := (504 + 1)%Z in
  let coord := @nil (Point2f F) in                  (* mLidarCoord.clear() *)
  coord <- for_range lStart lEnd (scan_body scan) coord ;;
  coord <- for_range rStart rEnd (scan_body scan) coord ;;
  Done (mkState coord (mFrame st) (mXycarSpeed st)).

(** *** The reference rasterization, in the words of the specification *)

(** The point of beam [i] read at range [r]:
    [(r cos theta, r sin theta)], [theta = angle_min + i * angle_increment]. *)
Definition polar_point (scan : LaserScan F) (i : Z) (r : F) : Point2f F :=
  let theta := fadd (angle_min scan) (fmul (of_int i) (angle_increment scan)) in
  mkPoint2f (fmul r (fcos theta)) (fmul r (fsin theta)).

(** Beam indices 0-126, then 378-504. *)
Definition windows : list Z := zseq 0 127 ++ zseq 378 127.

(** One point per listed beam index, in the order listed; [None] when the
    scan has no sample at one of them. *)
Fixpoint rasterize_at (scan : LaserScan F) (idx : list Z)
    : option (list (Point2f F)) :=
  match idx with
  | [] => Some []
  | i :: idx' =>
      match nth_error (ranges scan) (Z.to_nat i), rasterize_at scan idx' with
      | Some r, Some pts => Some (polar_point scan i r :: pts)
      | _, _ => None
      end
  end.

Definition rasterize_ref (scan : LaserScan F) : option (list (Point2f F)) :=
  rasterize_at scan windows.

(** Two scans that differ at most outside the two windows. *)
Definition same_in_windows (s1 s2 : LaserScan F) : Prop :=
  angle_min s1 = angle_min s2 /\
  angle_increment s1 = angle_increment s2 /\
  forall i, In i windows ->
    nth_error (ranges s1) (Z.to_nat i) = nth_error (ranges s2) (Z.to_nat i).

End ScanCallback.

(* ================================================================== *)
(** ** LaneKeepingSystem: image callback and fusion loop *)

(** What one pass of the loop body writes to standard output. *)
Inductive Line (F : Type) : Type :=
| SizeLine (n : nat)                 (* "mLidarCoord size: " n *)
| VcsLine (vcs : Point3f F).         (* "vcs coordinate: " vcs *)

Arguments SizeLine {F} n.

(** The locals of one pass that reaches the end of the loop body. *)
Record Fusion (F : Type) : Type := mkFusion {
  objectPoints : list (Point3f F);
  lidarImagePoints : list (Point2f F);
  bboxIdx : list Z;
  vcsCoords : list (Point3f F);
  printed : list (Line F)
}.

(** One pass of the loop body: left at [continue], or run to its end. *)
Inductive Tick (F : Type) : Type :=
| Skipped
| Fused (f : Fusion F).

Arguments Skipped {F}.

(** [sensor_msgs::Image], the fields the callback reads. *)
Record ImageMessage : Type := mkImageMessage {
  msg_height : Z;
  msg_width : Z;
  msg_step : Z;
  msg_data : list Z
}.

(** A message waiting in the callback queue when [ros::spinOnce] runs. *)
Inductive Message (F : Type) : Type :=
| ImageMsg (message : ImageMessage)
| ScanMsg (scan : LaserScan F).

Arguments ImageMsg {F} message.
Arguments ScanMsg {F} scan.

Definition is_scan {F : Type} (m : Message F) : bool :=
  match m with ScanMsg _ => true | ImageMsg _ => false end.

Section FusionLoop.

Context {F : Type} {ops : FloatOps F} {Image : Type}.

(** The two OpenCV calls of the image callback:
    [cv::Mat(rows, cols, CV_8UC3, data, step)], a matrix over the message's
    buffer, and [cv::cvtColor(src, dst, cv::COLOR_RGB2BGR)].  Either may
    leave through a [cv::Exception] (a step too small for the width, an
    empty matrix). *)
Variable cv_Mat : Z -> Z -> list Z -> Z -> Outcome Image.
Variable cvtColor_RGB2BGR : Image -> Outcome Image.

(** Members of [CameraDetector] that [run] calls and whose definitions are
    not among the source files covered here.  The calibrated transforms they
    read are fixed before the loop starts, so inside the loop they are
    functions of their arguments. *)
Variable getProjectPoints : list (Point3f F) -> list (Point2f F).
Variable boundingBox : Image -> list (Point2f F) -> list Z.
Variable getVCSCoordPointsFromLidar : Point3f F -> Point3f F.

(** The frame the callback computes from a message: [&message.data[0]]
    indexes the buffer, [src] is built over it and converted. *)
Definition frame_of (message : ImageMessage) : Outcome Image :=
  _ <- index (msg_data message) 0 ;;
  src <- cv_Mat (msg_height message) (msg_width message) (msg_data message)
           (msg_step message) ;;
  cvtColor_RGB2BGR src.

Definition imageCallback (st : State F Image) (message : ImageMessage)
    : Outcome (State F Image) :=
  frame <- frame_of message ;;
  Done (mkState (mLidarCoord st) frame (mXycarSpeed st)).

(** [cv::Point3f(mLidarCoord[i].y, -0.058, -mLidarCoord[i].x)] *)
Definition camera_point_body (coord : list (Point2f F)) (i : Z)
    (objectPoints : list (Point3f F)) : Outcome (list (Point3f F)) :=
  p <- index coord i ;;
  Done (objectPoints ++ [mkPoint3f (p2y p) (of_lit (-0.058)) (fneg (p2x p))]).

(** The conversion of the point at index [b], pushed and printed; [acc]
    holds [vcsCoords] and the output so far. *)
Definition vcs_step (objectPoints : list (Point3f F)) (b : Z)
    (acc : list (Point3f F) * list (Line F))
    : Outcome (list (Point3f F) * list (Line F)) :=
  o <- index objectPoints b ;;
  let vcs := getVCSCoordPointsFromLidar o in
  Done (fst acc ++ [vcs], snd acc ++ [VcsLine vcs]).

(** [objectPoints[bboxIdx[idx]]] *)
Definition vcs_body (objectPoints : list (Point3f F)) (bboxIdx : list Z)
    (idx : Z) (acc : list (Point3f F) * list (Line F))
    : Outcome (list (Point3f F) * list (Line F)) :=
  b <- index bboxIdx idx ;;
  vcs_step objectPoints b acc.

(** The loop body after [ros::spinOnce()]. *)
Definition run_body (st : State F Image) : Outcome (Tick F) :=
  if (length (mLidarCoord st) =? 0)%nat then Done Skipped       (* continue *)
  else
    let out := [SizeLine (length (mLidarCoord st))] in
    objectPoints <-
      for_range 0 (Z.of_nat (length (mLidarCoord st)))
        (camera_point_body (mLidarCoord st)) [] ;;
    let lidarImagePoints := getProjectPoints objectPoints in
    let bboxIdx := boundingBox (mFrame st) lidarImagePoints in
    r <- for_range 0 (Z.of_nat (length bboxIdx))
           (vcs_body objectPoints bboxIdx) ([], out) ;;
    Done (Fused (mkFusion objectPoints lidarImagePoints bboxIdx (fst r) (snd r))).

Definition dispatch (st : State F Image) (m : Message F)
    : Outcome (State F Image) :=
  match m with
  | ImageMsg message => imageCallback st message
  | ScanMsg scan => scanCallback st scan
  end.

(** [ros::spinOnce()]: every waiting message goes to its callback, in order. *)
Fixpoint spinOnce (st : State F Image) (queue : list (Message F))
    : Outcome (State F Image) :=
  match queue with
  | [] => Done st
  | m :: queue' => st' <- dispatch st m ;; spinOnce st' queue'
  end.

(** [while (ros::ok()) { ros::spinOnce(); ... }], for as many passes as
    [ros::ok()] holds; [queues] gives what each [spinOnce] finds waiting. *)
Fixpoint run_loop (st : State F Image) (queues : list (list (Message F)))
    : Outcome (State F Image * list (Tick F)) :=
  match queues with
  | [] => Done (st, [])
  | q :: queues' =>
      st' <- spinOnce st q ;;
      t <- run_body st' ;;
      r <- run_loop st' queues' ;;
      Done (fst r, t :: snd r)
  end.

(** The state the constructor leaves: no scan points yet. *)
Definition initial (frame0 : Image) (speed0 : F) : State F Image :=
  mkState [] frame0 speed0.

End FusionLoop.

(* ================================================================== *)
(** ** CameraDetector: correspondence catalog *)

(** The coordinates as the source text writes them.  The three generators
    also print their points; that output is left out. *)
Definition Generate2DPoints_lit : list (Q * Q) :=
  [ (84.857, 216.255);
    (108.035, 215.645);
    (192.209, 216.864);
    (217.828, 216.864);
    (300.172, 218.694);
    (324.57, 218.084);
    (408.134, 218.084);
    (431.923, 219.304);
    (514.267, 219.304);
    (536.836, 219.304);
    (84.857, 240.043);
    (108.035, 240.653);
    (192.209, 241.873);
    (217.218, 242.483);
    (299.562, 242.483);
    (324.57, 242.483);
    (408.744, 243.703);
    (431.923, 244.313);
    (513.047, 244.923);
    (535.616, 243.093) ]%Q.

Definition Generate3DLidarPoints_lit : list (Q * Q * Q) :=
  [ (-0.940092, -0.105, 1.34259);
    (-0.840092, -0.105, 1.34395);
    (-0.526456, -0.105, 1.34139);
    (-0.426456, -0.105, 1.34416);
    (-0.0840328, -0.105, 1.346385);
    (0.0159672, -0.105, 1.3479);
    (0.358982, -0.105, 1.33974);
    (0.451296, -0.105, 1.34321);
    (0.787527, -0.105, 1.33782);
    (0.887527, -0.105, 1.33728);
    (-0.940092, 0, 1.34259);
    (-0.840092, 0, 1.34395);
    (-0.526456, 0, 1.34139);
    (-0.426456, 0, 1.34416);
    (-0.0840328, 0, 1.346385);
    (0.0159672, 0, 1.3479);
    (0.358982, 0, 1.33974);
    (0.451296, 0, 1.34321);
    (0.787527, 0, 1.33782);
    (0.887527, 0, 1.33728) ]%Q.

Definition Generate3DVCSPoints_lit : list (Q * Q * Q) :=
  [ (-1.0, -0.105, 1.8);
    (-0.9, -0.105, 1.8);
    (-0.55, -0.105, 1.8);
    (-0.45, -0.105, 1.8);
    (-0.1, -0.105, 1.8);
    (-0.0, -0.105, 1.8);
    (0.35, -0.105, 1.8);
    (0.45, -0.105, 1.8);
    (0.8, -0.105, 1.8);
    (0.9, -0.105, 1.8);
    (-1.0, 0, 1.8);
    (-0.9, 0, 1.8);
    (-0.55, 0, 1.8);
    (-0.45, 0, 1.8);
    (-0.1, 0, 1.8);
    (0.0, 0, 1.8);
    (0.35, 0, 1.8);
    (0.45, 0, 1.8);
    (0.8, 0, 1.8);
    (0.9, 0, 1.8) ]%Q.

Section Catalog.

Context {F : Type} {ops : FloatOps F}.

Definition point2_of_lit (c : Q * Q) : Point2f F :=
  mkPoint2f (of_lit (fst c)) (of_lit (snd c)).

Definition point3_of_lit (c : Q * Q * Q) : Point3f F :=
  mkPoint3f (of_lit (fst (fst c))) (of_lit (snd (fst c))) (of_lit (snd c)).

Definition Generate2DPoints : list (Point2f F) :=
  map point2_of_lit Generate2DPoints_lit.

Definition Generate3DLidarPoints : list (Point3f F) :=
  map point3_of_lit Generate3DLidarPoints_lit.

Definition Generate3DVCSPoints : list (Point3f F) :=
  map point3_of_lit Generate3DVCSPoints_lit.

End Catalog.

(** A set of points is coplanar when one plane [a x + b y + c z = d] holds
    them all. *)
Definition coplanar (pts : list (Point3f Q)) : Prop :=
  exists a b c d : Q,
    ~ (a == 0 /\ b == 0 /\ c == 0)%Q /\
    Forall (fun p => a * p3x p + b * p3y p + c * p3z p == d)%Q pts.

(* ================================================================== *)
(** ** CameraDetector::solvePnP *)

(** What the wrapper writes to standard output. *)
Inductive PnPLine (F : Type) : Type :=
| CountLine (nImage nObject : nat)       (* "There are n imagePoints and m objectPoints." *)
| CameraMatrixLine (K : list (list F))   (* "Initial cameraMatrix: " *)
| DistCoeffsLine (D : list F)            (* "Initial distCoeffs: " *)
| RvecLine (rvec : Point3f F)            (* "rvec: " *)
| TvecLine (tvec : Point3f F)            (* "tvec: " *)
| ProjectedLine (imagePoint projected : Point2f F).

Arguments CountLine {F} nImage nObject.

Section SolvePnP.

Context {F : Type} {ops : FloatOps F}.

(** The two OpenCV calls of the wrapper. *)
Variable cv_solvePnP :
  list (Point3f F) -> list (Point2f F) -> list (list F) -> list F ->
  Outcome (Point3f F * Point3f F).
Variable cv_projectPoints :
  list (Point3f F) -> Point3f F -> Point3f F -> list (list F) -> list F ->
  Outcome (list (Point2f F)).

Variable mCameraMatrix : list (list F).
Variable mDistCoeffs : list F.

Definition projected_line_body (imagePoints projectedPoints : list (Point2f F))
    (i : Z) (out : list (PnPLine F)) : Outcome (list (PnPLine F)) :=
  ip <- index imagePoints i ;;
  pp <- index projectedPoints i ;;
  Done (out ++ [ProjectedLine ip pp]).

(** The wrapper returns nothing and stores nothing: [rvec] and [tvec] are
    locals.  Its result here is what it printed. *)
Definition solvePnP (imagePoints : list (Point2f F))
    (objectPoints : list (Point3f F)) : Outcome (list (PnPLine F)) :=
  let out := [CountLine (length imagePoints) (length objectPoints);
              CameraMatrixLine mCameraMatrix;
              DistCoeffsLine mDistCoeffs] in
  pose <- cv_solvePnP objectPoints imagePoints mCameraMatrix mDistCoeffs ;;
  let rvec := fst pose in
  let tvec := snd pose in
  let out := out ++ [RvecLine rvec; TvecLine tvec] in
  projectedPoints <-
    cv_projectPoints objectPoints rvec tvec mCameraMatrix mDistCoeffs ;;
  for_range 0 (Z.of_nat (length projectedPoints))
    (projected_line_body imagePoints projectedPoints) out.

End SolvePnP.

(* ================================================================== *)
(** ** LaneKeepingSystem::run *)

Section Run.

Context {F : Type} {ops : FloatOps F} {Image : Type}.

Variable cv_Mat : Z -> Z -> list Z -> Z -> Outcome Image.
Variable cvtColor_RGB2BGR : Image -> Outcome Image.

(** The two calibration calls of [run]: members of [CameraDetector] whose
    definitions are not among the source files covered here.  [run] has no handler, so
    what matters to it is whether they return. *)
Variable getLidarExtrinsicMatrix :
  list (Point2f F) -> list (Point3f F) -> Outcome unit.
Variable getVCSExtrinsicMatrix :
  list (Point2f F) -> list (Point3f F) -> Outcome unit.
Variable getProjectPoints : list (Point3f F) -> list (Point2f F).
Variable boundingBox : Image -> list (Point2f F) -> list Z.
Variable getVCSCoordPointsFromLidar : Point3f F -> Point3f F.

(** [run], from the correspondence catalog on; the set-up of the undistortion
    maps and of the network before it is left out. *)
Definition run (st : State F Image) (queues : list (list (Message F)))
    : Outcome (State F Image * list (Tick F)) :=
  let image2D := Generate2DPoints in
  let lidar3D := Generate3DLidarPoints in
  let vcs3D := Generate3DVCSPoints in
  _ <- getLidarExtrinsicMatrix image2D lidar3D ;;
  _ <- getVCSExtrinsicMatrix image2D vcs3D ;;
  run_loop cv_Mat cvtColor_RGB2BGR getProjectPoints boundingBox
    getVCSCoordPointsFromLidar st queues.

End Run.

(* ================================================================== *)
(** ** CameraDetector::boundingBox: decoding the network output

    The one-argument [boundingBox], from the blobs [outs] that the network
    returns for the frame: the decoding loop, the suppression and the
    drawing loop. *)

(** The three vectors filled before non-maximum suppression. *)
Record Candidates (F : Type) : Type := mkCandidates {
  classIds : list Z;
  confidences : list F;
  boxes : list Rect
}.

(** One rectangle drawn on the frame, with what its label is made of. *)
Record Drawn (F : Type) : Type := mkDrawn {
  drawnBox : Rect;
  drawnClass : Z;
  drawnName : string;
  drawnConfidence : F
}.

Section BoundingBox.

Context {F : Type} {ops : FloatOps F}.

(** [minMaxLoc(scores, 0, &confidence, 0, &classIdPoint)] on one row of
    scores: the largest score and the column of its first occurrence; on an
    empty row the value 0 at column -1. *)
Fixpoint max_from (best : F) (bestAt : Z) (at_ : Z) (scores : list F) : F * Z :=
  match scores with
  | [] => (best, bestAt)
  | s :: scores' =>
      if fgtb s best then max_from s at_ (at_ + 1)%Z scores'
      else max_from best bestAt (at_ + 1)%Z scores'
  end.

Definition minMaxLoc (scores : list F) : F * Z :=
  match scores with
  | [] => (of_int 0, (-1)%Z)
  | s :: scores' => max_from s 0%Z 1%Z scores'
  end.

Variable mConfThreshold : F.
Variable imgCols imgRows : Z.        (* mTemp.cols, mTemp.rows *)

(** The inner loop body, for one row of one output blob; [row] holds the
    [out.cols] values [data] points at. *)
Definition row_body (row : list F) (cand : Candidates F)
    : Outcome (Candidates F) :=
  if (length row <? 5)%nat then CvException          (* colRange(5, out.cols) *)
  else
    let scores := skipn 5 row in
    let confidence := fst (minMaxLoc scores) in
    let classIdPoint_x := snd (minMaxLoc scores) in
    if fgtb confidence mConfThreshold && (classIdPoint_x =? 4)%Z then
      d0 <- index row 0 ;;
      d1 <- index row 1 ;;
      d2 <- index row 2 ;;
      d3 <- index row 3 ;;
      let cx := wrap_int (to_int (fmul d0 (of_int imgCols))) in
      let cy := wrap_int (to_int (fmul d1 (of_int imgRows))) in
      let bw := wrap_int (to_int (fmul d2 (of_int imgCols))) in
      let bh := wrap_int (to_int (fmul d3 (of_int imgRows))) in
      let sx := wrap_int (cx - Z.quot bw 2) in
      let sy := wrap_int (cy - Z.quot bh 2) in
      Done (mkCandidates (classIds cand ++ [classIdPoint_x])
                         (confidences cand ++ [confidence])
                         (boxes cand ++ [mkRect sx sy bw bh]))
    else Done cand.

Fixpoint rows_loop (rows : list (list F)) (cand : Candidates F)
    : Outcome (Candidates F) :=
  match rows with
  | [] => Done cand
  | row :: rows' => cand' <- row_body row cand ;; rows_loop rows' cand'
  end.

(** [for (auto& out : outs)], each [out] given by its rows. *)
Fixpoint outs_loop (outs : list (list (list F))) (cand : Candidates F)
    : Outcome (Candidates F) :=
  match outs with
  | [] => Done cand
  | out :: outs' => cand' <- rows_loop out cand ;; outs_loop outs' cand'
  end.

Definition candidates (outs : list (list (list F))) : Outcome (Candidates F) :=
  outs_loop outs (mkCandidates [] [] []).

(** [cv::dnn::NMSBoxes(boxes, confidences, mConfThreshold, mNmsThreshold,
    indices)] *)
Variable NMSBoxes : list Rect -> list F -> F -> F -> list Z.
Variable mNmsThreshold : F.
Variable mClassNames : list string.

(** What is drawn for the candidate [idx]: [boxes[idx]], and a label made of
    [confidences[idx]] and [mClassNames[classIds[idx]]]. *)
Definition draw_step (cand : Candidates F) (idx : Z) (acc : list (Drawn F))
    : Outcome (list (Drawn F)) :=
  box <- index (boxes cand) idx ;;
  conf <- index (confidences cand) idx ;;
  cls <- index (classIds cand) idx ;;
  name <- index mClassNames cls ;;
  Done (acc ++ [mkDrawn box cls name conf]).

Definition draw_body (cand : Candidates F) (indices : list Z) (i : Z)
    (acc : list (Drawn F)) : Outcome (list (Drawn F)) :=
  idx <- index indices i ;;
  draw_step cand idx acc.

(** The detections that survive suppression, as drawn. *)
Definition boundingBox_drawn (outs : list (list (list F)))
    : Outcome (list (Drawn F)) :=
  cand <- candidates outs ;;
  let indices :=
    NMSBoxes (boxes cand) (confidences cand) mConfThreshold mNmsThreshold in
  for_range 0 (Z.of_nat (length indices)) (draw_body cand indices) [].

End BoundingBox.

(* ================================================================== *)
(** ** Components whose code is not among the source files covered here

    [run] calls [getProjectPoints] and a two-argument [boundingBox] that
    returns indices.  The specification describes both (PointProjector,
    DetectionAssociator); the definitions below follow its words.  [run]
    receives the projected points as a vector of pixel coordinates, so the
    flag that the specification asks for on a point behind the camera is a
    pixel value that association recognises. *)

Module SpecModel.

(** Modelled from the spec: the ExtrinsicTransform that the missing
    [getLidarExtrinsicMatrix] computes, a rotation matrix (by rows) and a
    translation. *)
Record ExtrinsicTransform (F : Type) : Type := mkExtrinsic {
  rot1 : Point3f F;
  rot2 : Point3f F;
  rot3 : Point3f F;
  trans : Point3f F
}.

(** Modelled from the spec: the IntrinsicModel read by the missing
    [getProjectPoints], focal lengths, principal point and the lens
    distortion applied to normalised coordinates. *)
Record IntrinsicModel (F : Type) : Type := mkIntrinsic {
  focalX : F;
  focalY : F;
  centerX : F;
  centerY : F;
  distort : F * F -> F * F
}.

(** Modelled from the spec: the flag that the missing [getProjectPoints]
    puts on a point it cannot project, a pixel value [invalid_pixel] that
    [is_invalid] recognises, and the size of the image, outside of which a
    pixel is out of range for the missing [boundingBox]. *)
Class PixelFlag (F : Type) : Type := mkPixelFlag {
  invalid_pixel : Point2f F;
  is_invalid : Point2f F -> bool;
  image_width : Z;
  image_height : Z;
  invalid_pixel_flagged : is_invalid invalid_pixel = true
}.

Section Model.

Context {F : Type} {ops : FloatOps F} {flag : PixelFlag F} {Image : Type}.

Definition dot (a b : Point3f F) : F :=
  fadd (fadd (fmul (p3x a) (p3x b)) (fmul (p3y a) (p3y b)))
       (fmul (p3z a) (p3z b)).

(** Modelled from the spec: the rotation and translation step of the
    missing [getProjectPoints], giving the point in the camera frame. *)
Definition to_camera (T : ExtrinsicTransform F) (p : Point3f F) : Point3f F :=
  mkPoint3f (fadd (dot (rot1 T) p) (p3x (trans T)))
            (fadd (dot (rot2 T) p) (p3y (trans T)))
            (fadd (dot (rot3 T) p) (p3z (trans T))).

(** Modelled from the spec: the depth of a point in the camera frame, the
    quantity the missing [getProjectPoints] divides by. *)
Definition depth (T : ExtrinsicTransform F) (p : Point3f F) : F :=
  p3z (to_camera T p).

Definition behind_camera (T : ExtrinsicTransform F) (p : Point3f F) : bool :=
  fleb (depth T p) (of_int 0).

(** Modelled from the spec: the pinhole projection and the distortion model
    of the missing [getProjectPoints], on a point in the camera frame. *)
Definition pinhole (K : IntrinsicModel F) (c : Point3f F) : Point2f F :=
  let n := distort K (fdiv (p3x c) (p3z c), fdiv (p3y c) (p3z c)) in
  mkPoint2f (fadd (fmul (focalX K) (fst n)) (centerX K))
            (fadd (fmul (focalY K) (snd n)) (centerY K)).

(** Modelled from the spec: the missing [getProjectPoints] on one point,
    rotation and translation, then the pinhole projection and the distortion
    model; a point of non-positive depth is flagged instead. *)
Definition project_point (T : ExtrinsicTransform F) (K : IntrinsicModel F)
    (p : Point3f F) : Point2f F :=
  if behind_camera T p then invalid_pixel else pinhole K (to_camera T p).

(** Modelled from the spec: the missing [getProjectPoints], a sequence of
    pixel coordinates of the same length and order as its input. *)
Definition getProjectPoints (T : ExtrinsicTransform F) (K : IntrinsicModel F)
    (points : list (Point3f F)) : list (Point2f F) :=
  map (project_point T K) points.

(** Modelled from the spec: the containment test of the missing two-argument
    [boundingBox], point in rectangle with the boundary included. *)
Definition contains (r : Rect) (p : Point2f F) : bool :=
  fleb (of_int (rx r)) (p2x p) && fleb (p2x p) (of_int (rx r + rwidth r)) &&
  fleb (of_int (ry r)) (p2y p) && fleb (p2y p) (of_int (ry r + rheight r)).

Definition inside_any (rects : list Rect) (p : Point2f F) : bool :=
  existsb (fun r => contains r p) rects.

(** Modelled from the spec: the pixels inside the image bounds. *)
Definition in_image (p : Point2f F) : bool :=
  fleb (of_int 0) (p2x p) && fgtb (of_int image_width) (p2x p) &&
  fleb (of_int 0) (p2y p) && fgtb (of_int image_height) (p2y p).

(** Modelled from the spec: a projected point is out of range when it is
    flagged or lies outside the image bounds; the missing [boundingBox]
    excludes it from association. *)
Definition in_range (p : Point2f F) : bool :=
  negb (is_invalid p) && in_image p.

Definition associated (rects : list Rect) (p : Point2f F) : bool :=
  in_range p && inside_any rects p.

(** Modelled from the spec: the association of the missing two-argument
    [boundingBox], the index of every point in range that lies inside at
    least one rectangle, each reported once, in index order. *)
Fixpoint associate_from (i : Z) (projected : list (Point2f F))
    (rects : list Rect) : list Z :=
  match projected with
  | [] => []
  | p :: projected' =>
      if associated rects p then i :: associate_from (i + 1)%Z projected' rects
      else associate_from (i + 1)%Z projected' rects
  end.

Definition associate (projected : list (Point2f F)) (rects : list Rect)
    : list Z :=
  associate_from 0%Z projected rects.

(** Modelled from the spec: the missing two-argument [boundingBox], the
    association of the projected points with the rectangles that the
    external detector [detect] finds in the frame. *)
Definition boundingBox (detect : Image -> list Rect) (frame : Image)
    (projected : list (Point2f F)) : list Z :=
  associate projected (detect frame).

End Model.

(** The flag and the image size for the examples: the pixel (-1, -1), and
    the 640 by 480 image of the launch file. *)
Definition flagQ : PixelFlag Q :=
  @mkPixelFlag Q (mkPoint2f (-1)%Q (-1)%Q)
    (fun p => Qeq_bool (p2x p) (-1)%Q && Qeq_bool (p2y p) (-1)%Q)
    640 480 eq_refl.

End SpecModel.

#[global] Existing Instance SpecModel.flagQ.

(* ================================================================== *)
(** ** A behaviour of the two OpenCV calls, for the examples

    [cv::solvePnP] asserts on entry that it has at least four points and as
    many image points as object points, and raises otherwise; past the
    assertion this behaviour returns the pose it is given.
    [cv::projectPoints] returns one pixel per object point. *)

Module CvModel.

Section Model.

Context {F : Type} {ops : FloatOps F}.

Definition entry_ok (objectPoints : list (Point3f F))
    (imagePoints : list (Point2f F)) : bool :=
  (4 <=? length objectPoints)%nat &&
  (length objectPoints =? length imagePoints)%nat.

Definition solvePnP (pose : Point3f F * Point3f F)
    (objectPoints : list (Point3f F)) (imagePoints : list (Point2f F))
    (K : list (list F)) (D : list F) : Outcome (Point3f F * Point3f F) :=
  if entry_ok objectPoints imagePoints then Done pose else CvException.

Definition projectPoints (project1 : Point3f F -> Point2f F)
    (objectPoints : list (Point3f F)) (rvec tvec : Point3f F)
    (K : list (list F)) (D : list F) : Outcome (list (Point2f F)) :=
  Done (map project1 objectPoints).

End Model.

End CvModel.

(* ================================================================== *)
(** ** Loops over a vector, and data for the examples *)

(** A loop that reads [v[i]] for each [i] in turn and updates its state by
    [step] is a fold over [v]. *)
Fixpoint fold_outcome {A St : Type} (step : A -> St -> Outcome St)
    (v : list A) (s : St) : Outcome St :=
  match v with
  | [] => Done s
  | a :: v' => s' <- step a s ;; fold_outcome step v' s'
  end.

(** The camera-frame point of a LiDAR-frame point, in the words of the
    specification: a fixed permutation of the axes and a mounting height. *)
Definition camera_of_lidar {F : Type} {ops : FloatOps F} (h : F)
    (p : Point2f F) : Point3f F :=
  mkPoint3f (p2y p) h (fneg (p2x p)).

(** A scan of 505 unit ranges starting at angle 0, and a scan one sample
    short, for the examples. *)
Definition scan505 : LaserScan Q :=
  mkLaserScan 0%Q (1 # 100)%Q (repeat 1%Q 505).

Definition scan504 : LaserScan Q :=
  mkLaserScan 0%Q (1 # 100)%Q (repeat 1%Q 504).

Definition state0 : State Q unit := mkState [] tt 0%Q.

(** The vector [v] holds [a] at the [int] index [b]. *)
Definition picks {A : Type} (v : list A) (b : Z) (a : A) : Prop :=
  (0 <= b)%Z /\ nth_error v (Z.to_nat b) = Some a.

(** The fused obstacles a pass hands on: none when it is skipped. *)
Definition obstacles {F : Type} (t : Tick F) : list (Point3f F) :=
  match t with
  | Skipped => []
  | Fused f => vcsCoords f
  end.

(** The exclusion of points behind the camera, as the specification words
    it: no point of non-positive depth is among the associated ones, in any
    pass of the loop. *)
Definition behind_camera_excluded {F : Type} {ops : FloatOps F}
    {flag : SpecModel.PixelFlag F} {Image : Type}
    (T : SpecModel.ExtrinsicTransform F) (K : SpecModel.IntrinsicModel F)
    (detect : Image -> list Rect)
    (getVCSCoordPointsFromLidar : Point3f F -> Point3f F) : Prop :=
  forall (st : State F Image) (f : Fusion F) (i : nat) (o : Point3f F),
    run_body (SpecModel.getProjectPoints T K) (SpecModel.boundingBox detect)
      getVCSCoordPointsFromLidar st = Done (Fused f) ->
    nth_error (objectPoints f) i = Some o ->
    SpecModel.behind_camera T o = true ->
    ~ In (Z.of_nat i) (bboxIdx f).

(** A camera looking along its z axis from the origin, and one turned half
    a turn about its y axis, which looks along the LiDAR x axis; focal
    length 400 and principal point (320, 240), no distortion; a detector
    that reports one rectangle, and one that reports none. *)
Definition identityT : SpecModel.ExtrinsicTransform Q :=
  SpecModel.mkExtrinsic
    (mkPoint3f 1%Q 0%Q 0%Q) (mkPoint3f 0%Q 1%Q 0%Q) (mkPoint3f 0%Q 0%Q 1%Q)
    (mkPoint3f 0%Q 0%Q 0%Q).

Definition facingT : SpecModel.ExtrinsicTransform Q :=
  SpecModel.mkExtrinsic
    (mkPoint3f (-1)%Q 0%Q 0%Q) (mkPoint3f 0%Q 1%Q 0%Q) (mkPoint3f 0%Q 0%Q (-1)%Q)
    (mkPoint3f 0%Q 0%Q 0%Q).

Definition pinholeK : SpecModel.IntrinsicModel Q :=
  SpecModel.mkIntrinsic 400%Q 400%Q 320%Q 240%Q (fun n => n).

Definition one_box (frame : unit) : list Rect := [mkRect 300 220 40 20].

Definition no_box (frame : unit) : list Rect := [].

(** A scan whose 505 beams all point along the LiDAR x axis, at range 1 up
    to beam 377 and at range 2 from beam 378 on. *)
Definition scan_axis : LaserScan Q :=
  mkLaserScan 0%Q 0%Q (repeat 1%Q 378 ++ repeat 2%Q 127).

(** The stored set after [scan_axis]: 127 times the point (1, 0), then 127
    times the point (2, 0). *)
Definition state_axis : State Q unit :=
  mkState (repeat (mkPoint2f 1%Q 0%Q) 127 ++ repeat (mkPoint2f 2%Q 0%Q) 127)
    tt 0%Q.

(** For the examples, a conversion to vehicle coordinates that leaves the
    point as it is; frames without content, with a matrix constructor that
    raises when the step is smaller than three bytes per pixel of a row and
    a colour conversion that returns; a 1 x 1 image message, and one with
    an empty buffer. *)
Definition vcs_identity (p : Point3f Q) : Point3f Q := p.

Definition mat_unit (rows cols : Z) (data : list Z) (step : Z) : Outcome unit :=
  if (step <? cols * 3)%Z then CvException else Done tt.

Definition cvt_unit (frame : unit) : Outcome unit := Done frame.

Definition image1 : ImageMessage := mkImageMessage 1 1 3 [10; 20; 30]%Z.

Definition image_empty : ImageMessage := mkImageMessage 0 0 0 [].

Definition image_ill_stepped : ImageMessage :=
  mkImageMessage 1 2 3 [10; 20; 30; 40; 50; 60]%Z.

(** What a pass computes in [state_axis] with the camera [facingT] when the
    detector reports [one_box]: the first 127 points handed to projection
    are (0, -0.058, -1), at depth 1 for [facingT], with pixel (320, 216.8),
    above the rectangle; the last 127 are (0, -0.058, -2), at depth 2, with
    pixel (320, 228.4), inside it. *)
Definition near_point : Point3f Q := mkPoint3f 0%Q (-29 # 500)%Q (-1)%Q.

Definition far_point : Point3f Q := mkPoint3f 0%Q (-29 # 500)%Q (-2)%Q.

Definition fusion_axis : Fusion Q :=
  mkFusion
    (repeat near_point 127 ++ repeat far_point 127)
    (repeat (mkPoint2f 320%Q (1084 # 5)%Q) 127 ++
     repeat (mkPoint2f 320%Q (1142 # 5)%Q) 127)
    (zseq 127 127)
    (repeat far_point 127)
    (SizeLine 254 :: repeat (VcsLine far_point) 127).

(** The same pass when the detector reports [no_box]. *)
Definition fusion_axis_no_box : Fusion Q :=
  mkFusion
    (repeat near_point 127 ++ repeat far_point 127)
    (repeat (mkPoint2f 320%Q (1084 # 5)%Q) 127 ++
     repeat (mkPoint2f 320%Q (1142 # 5)%Q) 127)
    [] [] [SizeLine 254].

(** The same pass with the camera [identityT], which looks the other way:
    every point has negative depth and is flagged, and none is associated,
    although the rectangle of [box_behind] holds the pixel (320, 263.2)
    that the pinhole formula gives for the first 127 of them. *)
Definition box_behind (frame : unit) : list Rect := [mkRect 300 250 40 30].

Definition fusion_behind : Fusion Q :=
  mkFusion
    (repeat near_point 127 ++ repeat far_point 127)
    (repeat (mkPoint2f (-1)%Q (-1)%Q) 254)
    [] [] [SizeLine 254].

(** Three passes of the loop: an image arrives, then an image and the first
    scan, then nothing; and two passes in which only images arrive. *)
Definition queues_first_scan : list (list (Message Q)) :=
  [ [ImageMsg image1]; [ImageMsg image1; ScanMsg scan_axis]; [] ].

Definition queues_images : list (list (Message Q)) :=
  [ [ImageMsg image1]; [ImageMsg image1; ImageMsg image1] ].

(* ================================================================== *)
(** ** The detector's candidates, row by row *)

Section Accepts.

Context {F : Type} {ops : FloatOps F}.

Variable mConfThreshold : F.
Variable imgCols imgRows : Z.

(** The score and the column that [minMaxLoc] reports for a row. *)
Definition best_score (row : list F) : F := fst (minMaxLoc (skipn 5 row)).
Definition best_class (row : list F) : Z := snd (minMaxLoc (skipn 5 row)).

(** The test of the inner loop: the best score exceeds the threshold and
    the best class is 4. *)
Definition accepts (row : list F) : bool :=
  fgtb (best_score row) mConfThreshold && (best_class row =? 4)%Z.

(** The rectangle pushed for a row. *)
Definition box_of_row (row : list F) : Rect :=
  let d := fun k => nth k row (of_int 0) in
  let cx := wrap_int (to_int (fmul (d 0%nat) (of_int imgCols))) in
  let cy := wrap_int (to_int (fmul (d 1%nat) (of_int imgRows))) in
  let bw := wrap_int (to_int (fmul (d 2%nat) (of_int imgCols))) in
  let bh := wrap_int (to_int (fmul (d 3%nat) (of_int imgRows))) in
  mkRect (wrap_int (cx - Z.quot bw 2)) (wrap_int (cy - Z.quot bh 2)) bw bh.

(** The three vectors after the rows [kept] have each pushed an entry. *)
Definition extend (cand : Candidates F) (kept : list (list F)) : Candidates F :=
  mkCandidates (classIds cand ++ map (fun _ => 4%Z) kept)
               (confidences cand ++ map best_score kept)
               (boxes cand ++ map box_of_row kept).

Definition long_enough (row : list F) : bool := (5 <=? length row)%nat.

End Accepts.

(** A network output of three rows over six classes, with threshold 1/2:
    class 4 at 0.9, class 2 at 0.95, class 4 at 0.3; and a suppression that
    keeps every candidate. *)
Definition outs3 : list (list (list Q)) :=
  [ [ [0.5; 0.5; 0.2; 0.4; 0.9; 0.01; 0.02; 0.03; 0.04; 0.9; 0.05];
      [0.3; 0.3; 0.1; 0.1; 0.9; 0.01; 0.02; 0.95; 0.04; 0.6; 0.05] ];
    [ [0.7; 0.7; 0.1; 0.1; 0.8; 0.01; 0.02; 0.03; 0.04; 0.3; 0.05] ] ]%Q.

Definition keep_all (boxes : list Rect) (confidences : list Q)
    (scoreThreshold nmsThreshold : Q) : list Z :=
  zseq 0 (length boxes).

Definition six_names : list string :=
  ["zero"; "one"; "two"; "three"; "four"; "five"]%string.

(** The detection drawn for [outs3], the detector that reports its
    rectangle, and what a pass computes in [state_axis] with the camera
    [facingT] and that detector: the rectangle holds the pixels of all the
    254 points. *)
Definition drawn3 : list (Drawn Q) :=
  [mkDrawn (mkRect 256 144 128 192) 4 "four"%string 0.9%Q].

Definition detect_drawn3 (frame : unit) : list Rect := map (@drawnBox Q) drawn3.

Definition fusion_drawn3 : Fusion Q :=
  mkFusion
    (repeat near_point 127 ++ repeat far_point 127)
    (repeat (mkPoint2f 320%Q (1084 # 5)%Q) 127 ++
     repeat (mkPoint2f 320%Q (1142 # 5)%Q) 127)
    (zseq 0 254)
    (repeat near_point 127 ++ repeat far_point 127)
    (SizeLine 254 ::
     repeat (VcsLine near_point) 127 ++ repeat (VcsLine far_point) 127).

(* ================================================================== *)
(** ** Calibration: the rejection the specification asks for *)

(** A correspondence set is unusable when the counts differ, when it has
    fewer than four pairs, or when its 3D points are coplanar. *)
Definition unusable (imagePoints : list (Point2f Q))
    (objectPoints : list (Point3f Q)) : Prop :=
  length imagePoints <> length objectPoints \/
  length objectPoints < 4 \/
  coplanar objectPoints.

(** The rejection as the specification words it: the wrapper leaves through
    an exception on every unusable set. *)
Definition rejects_unusable_sets
    (cv_solvePnP : list (Point3f Q) -> list (Point2f Q) -> list (list Q) ->
                   list Q -> Outcome (Point3f Q * Point3f Q))
    (cv_projectPoints : list (Point3f Q) -> Point3f Q -> Point3f Q ->
                        list (list Q) -> list Q -> Outcome (list (Point2f Q)))
    (K : list (list Q)) (D : list Q) : Prop :=
  forall imagePoints objectPoints,
    unusable imagePoints objectPoints ->
    solvePnP cv_solvePnP cv_projectPoints K D imagePoints objectPoints =
    CvException.

(** For the examples: the camera matrix of [pinholeK], no distortion
    coefficients, and the pose of [identityT], a zero rotation vector and a
    zero translation. *)
Definition matrixK : list (list Q) :=
  [ [400; 0; 320]; [0; 400; 240]; [0; 0; 1] ]%Q.

Definition pose0 : Point3f Q * Point3f Q :=
  (mkPoint3f 0%Q 0%Q 0%Q, mkPoint3f 0%Q 0%Q 0%Q).

(** Three matched pairs, the first three of the catalog. *)
Definition three_image : list (Point2f Q) := firstn 3 Generate2DPoints.
Definition three_object : list (Point3f Q) := firstn 3 Generate3DLidarPoints.

(** Calibration calls for the examples: the wrapper, its output dropped. *)
Definition calibrate_model (imagePoints : list (Point2f Q))
    (objectPoints : list (Point3f Q)) : Outcome unit :=
  _ <- solvePnP (CvModel.solvePnP pose0)
         (CvModel.projectPoints (SpecModel.project_point identityT pinholeK))
         matrixK [] imagePoints objectPoints ;;
  Done tt.

(** A calibration call that raises on every set. *)
Definition calibrate_raises (imagePoints : list (Point2f Q))
    (objectPoints : list (Point3f Q)) : Outcome unit :=
  CvException.

(* ================================================================== *)
(** ** The callback queue: which message is the last of its kind *)

Fixpoint last_scan {F : Type} (queue : list (Message F))
    : option (LaserScan F) :=
  match queue with
  | [] => None
  | m :: queue' =>
      match last_scan queue', m with
      | Some scan, _ => Some scan
      | None, ScanMsg scan => Some scan
      | None, ImageMsg _ => None
      end
  end.

Fixpoint last_image {F : Type} (queue : list (Message F))
    : option ImageMessage :=
  match queue with
  | [] => None
  | m :: queue' =>
      match last_image queue', m with
      | Some message, _ => Some message
      | None, ImageMsg message => Some message
      | None, ScanMsg _ => None
      end
  end.

(** A scan too short for the callback. *)
Definition short_scan {F : Type} (m : Message F) : bool :=
  match m with
  | ScanMsg scan => (length (ranges scan) <? 505)%nat
  | ImageMsg _ => false
  end.

(* ================================================================== *)
(** ** LaneKeepingSystem::speedControl *)

(** The members that [setParams] reads from the configuration and that no
    method assigns afterwards. *)
Record SpeedConfig (F : Type) : Type := mkSpeedConfig {
  mXycarMaxSpeed : F;
  mXycarMinSpeed : F;
  mXycarSpeedControlThreshold : F;
  mAccelerationStep : F;
  mDecelerationStep : F
}.

Section SpeedControl.

Context {F : Type} {ops : FloatOps F} {Image : Type}.

Variable fsub : F -> F -> F.          (* a - b *)
Variable fabs : F -> F.               (* std::abs(a) *)

(** [std::max(a, b)] is [(a < b) ? b : a] and [std::min(a, b)] is
    [(b < a) ? b : a]; [x < y] is read as [y > x]. *)
Definition std_max (a b : F) : F := if fgtb b a then b else a.
Definition std_min (a b : F) : F := if fgtb a b then b else a.

Definition speedControl (cfg : SpeedConfig F) (st : State F Image)
    (steeringAngle : F) : State F Image :=
  if fgtb (fabs steeringAngle) (mXycarSpeedControlThreshold cfg) then
    let speed := fsub (mXycarSpeed st) (mDecelerationStep cfg) in
    let speed := std_max speed (mXycarMinSpeed cfg) in
    mkState (mLidarCoord st) (mFrame st) speed                   (* return *)
  else
    let speed := fadd (mXycarSpeed st) (mAccelerationStep cfg) in
    let speed := std_min speed (mXycarMaxSpeed cfg) in
    mkState (mLidarCoord st) (mFrame st) speed.

(** [a <= b], as the negation of [a > b]. *)
Definition not_above (a b : F) : Prop := fgtb a b = false.

(** What the properties of [speedControl] need of the arithmetic: the order
    is that of numbers that are not NaN, subtracting a non-negative step does
    not increase a value and adding one does not decrease it. *)
Record OrderLaws : Prop := mkOrderLaws {
  gt_irrefl : forall a, not_above a a;
  not_above_trans :
    forall a b c, not_above a b -> not_above b c -> not_above a c;
  sub_step : forall x d, not_above (of_int 0) d -> not_above (fsub x d) x;
  add_step : forall x a, not_above (of_int 0) a -> not_above x (fadd x a)
}.

End SpeedControl.

(** Subtraction and absolute value of exact rationals, and a configuration,
    for the examples. *)
Definition Qsub_red (a b : Q) : Q := Qred (a - b).
Definition Qabs_red (a : Q) : Q := Qred (Qabs a).

Definition speed_config : SpeedConfig Q :=
  mkSpeedConfig 10%Q 2%Q 20%Q (1 # 2)%Q 1%Q.

(* ================================================================== *)
(** ** CameraDetector::setConfiguration: the camera matrix *)

(** A [cv::Mat] of floats: its dimensions and its elements row by row. *)
Record Mat (F : Type) : Type := mkMat {
  mat_rows : Z;
  mat_cols : Z;
  mat_elems : list (list F)
}.

Fixpoint set_nth {A : Type} (l : list A) (n : nat) (a : A) : list A :=
  match l, n with
  | [], _ => []
  | _ :: l', O => a :: l'
  | x :: l', S n' => x :: set_nth l' n' a
  end.

Section SetConfiguration.

Context {F : Type}.

(** The matrix has the rows and columns its dimensions announce. *)
Definition mat_wf (m : Mat F) : Prop :=
  (0 <= mat_rows m)%Z /\ (0 <= mat_cols m)%Z /\
  length (mat_elems m) = Z.to_nat (mat_rows m) /\
  Forall (fun row => length row = Z.to_nat (mat_cols m)) (mat_elems m).

(** The element [(i, j)]. *)
Definition mat_get (m : Mat F) (i j : nat) : option F :=
  match nth_error (mat_elems m) i with
  | Some row => nth_error row j
  | None => None
  end.

(** [m.at<float>(i, j) = v] *)
Definition mat_set (m : Mat F) (i j : Z) (v : F) : Outcome (Mat F) :=
  row <- index (mat_elems m) i ;;
  _ <- index row j ;;
  Done (mkMat (mat_rows m) (mat_cols m)
          (set_nth (mat_elems m) (Z.to_nat i) (set_nth row (Z.to_nat j) v))).

(** [mCameraMatrix.at<float>(i, j) = matrixData[i][j]] *)
Definition fill_inner (matrixData : list (list F)) (i j : Z) (m : Mat F)
    : Outcome (Mat F) :=
  dataRow <- index matrixData i ;;
  v <- index dataRow j ;;
  mat_set m i j v.

Definition fill_outer (matrixData : list (list F)) (i : Z) (m : Mat F)
    : Outcome (Mat F) :=
  for_range 0 (mat_cols m) (fill_inner matrixData i) m.

(** The two nested loops over [mCameraMatrix], [matrixData] holding the rows
    of the configuration's camera matrix. *)
Definition fill_camera_matrix (mCameraMatrix : Mat F)
    (matrixData : list (list F)) : Outcome (Mat F) :=
  for_range 0 (mat_rows mCameraMatrix) (fill_outer matrixData) mCameraMatrix.

(** [matrixData[i][j]], when the configuration has it. *)
Definition entry (matrixData : list (list F)) (i j : nat) : option F :=
  match nth_error matrixData i with
  | Some dataRow => nth_error dataRow j
  | None => None
  end.

(** The configuration has an entry for every element of the matrix. *)
Definition covers (m : Mat F) (matrixData : list (list F)) : Prop :=
  forall i j, i < Z.to_nat (mat_rows m) -> j < Z.to_nat (mat_cols m) ->
    entry matrixData i j <> None.

End SetConfiguration.

(** A 2 x 2 matrix of zeros, a configuration with a third column and a third
    row, and one whose second row is short. *)
Definition zero22 : Mat Q := mkMat 2 2 [ [0; 0]; [0; 0] ]%Q.

Definition data33 : list (list Q) := [ [1; 2; 3]; [4; 5; 6]; [7; 8; 9] ]%Q.

Definition data_short : list (list Q) := [ [1; 2]; [4] ]%Q.

(* ================================================================== *)
(** ** CameraDetector::solvePnP: the lines it prints *)

Definition pnp_lines {F : Type} (K : list (list F)) (D : list F)
    (imagePoints : list (Point2f F)) (objectPoints : list (Point3f F))
    (pose : Point3f F * Point3f F) (projectedPoints : list (Point2f F))
    : list (PnPLine F) :=
  [ CountLine (length imagePoints) (length objectPoints);
    CameraMatrixLine K; DistCoeffsLine D;
    RvecLine (fst pose); TvecLine (snd pose) ] ++
  map (fun ab => ProjectedLine (fst ab) (snd ab))
      (combine imagePoints projectedPoints).

(** A projection that returns one pixel more than it is given points, for
    the examples. *)
Definition project_one_more (objectPoints : list (Point3f Q))
    (rvec tvec : Point3f Q) (K : list (list Q)) (D : list Q)
    : Outcome (list (Point2f Q)) :=
  Done (mkPoint2f 0%Q 0%Q ::
        map (SpecModel.project_point identityT pinholeK) objectPoints).

(** An association that returns an index past the end, and one that returns
    the first index twice, for the examples. *)
Definition bad_index (frame : unit) (projected : list (Point2f Q)) : list Z :=
  [Z.of_nat (length projected)].

Definition twice_first (frame : unit) (projected : list (Point2f Q)) : list Z :=
  [0%Z; 0%Z].

(** A network output with a row of four columns. *)
Definition outs_short : list (list (list Q)) :=
  [ [ [0.5; 0.5; 0.2; 0.4; 0.9; 0.01; 0.02; 0.03; 0.04; 0.9; 0.05];
      [0.3; 0.3; 0.1; 0.1] ] ]%Q.

Definition two_names : list string := ["zero"; "one"]%string.

(** A queue with two scans and two images, and two queues of which the
    second holds a scan one sample short, for the examples. *)
Definition queue_mixed : list (Message Q) :=
  [ImageMsg image1; ScanMsg scan505; ScanMsg scan_axis; ImageMsg image1].

Definition queues_short_scan : list (list (Message Q)) :=
  [ [ImageMsg image1]; [ScanMsg scan504]; [ScanMsg scan_axis] ].

(** A state with speed 5, inside the range of [speed_config]. *)
Definition state_speed5 : State Q unit := mkState [] tt 5%Q.

(** What a pass computes in [state_axis] when association returns the first
    index twice. *)
Definition fusion_twice : Fusion Q :=
  mkFusion
    (repeat near_point 127 ++ repeat far_point 127)
    (repeat (mkPoint2f 320%Q (1084 # 5)%Q) 127 ++
     repeat (mkPoint2f 320%Q (1142 # 5)%Q) 127)
    [0%Z; 0%Z]
    [near_point; near_point]
    [SizeLine 254; VcsLine near_point; VcsLine near_point].

(* ================================================================== *)
(** * Properties *)

(** ** Outcomes and loops *)

Lemma index_done {A : Type} (v : list A) (i : Z) (a : A) :
  index v i = Done a <-> (0 <= i)%Z /\ nth_error v (Z.to_nat i) = Some a.
Proof.
  unfold index. destruct (Z.ltb_spec i 0).
  - split; [discriminate | lia].
  - destruct (nth_error v (Z.to_nat i)) eqn:E; split.
    + intros [= ->]. auto.
    + intros [_ [= ->]]. reflexivity.
    + discriminate.
    + intros [_ [=]].
Qed.

Lemma index_of_nat {A : Type} (v : list A) (k : nat) :
  index v (Z.of_nat k) =
  match nth_error v k with Some a => Done a | None => OutOfBounds end.
Proof.
  unfold index. destruct (Z.ltb_spec (Z.of_nat k) 0); [lia |].
  now rewrite Nat2Z.id.
Qed.

Lemma index_never_raises {A : Type} (v : list A) (i : Z) :
  index v i <> CvException.
Proof.
  unfold index. destruct (i <? 0)%Z; [discriminate |].
  destruct (nth_error v (Z.to_nat i)); discriminate.
Qed.

Lemma zseq_length (n : nat) : forall lo, length (zseq lo n) = n.
Proof. induction n; intros lo; simpl; [reflexivity | now rewrite IHn]. Qed.

Lemma zseq_nth (n : nat) : forall lo k,
  k < n -> nth_error (zseq lo n) k = Some (lo + Z.of_nat k)%Z.
Proof.
  induction n; intros lo k Hk; [lia |].
  destruct k as [| k]; simpl.
  - f_equal. lia.
  - rewrite IHn by lia. f_equal. lia.
Qed.

Lemma zseq_In (n : nat) : forall lo i,
  In i (zseq lo n) <-> (lo <= i < lo + Z.of_nat n)%Z.
Proof.
  induction n; intros lo i; simpl.
  - lia.
  - rewrite IHn. lia.
Qed.

(** ** The scan callback *)

Section ScanCallbackFacts.

Context {F : Type} {ops : FloatOps F} {Image : Type}.

Lemma scan_body_polar (scan : LaserScan F) (i : Z) (coord : list (Point2f F)) :
  scan_body scan i coord =
  (r <- index (ranges scan) i ;; Done (coord ++ [polar_point scan i r])).
Proof. reflexivity. Qed.

(** A window that lies inside the scan is rasterized point by point. *)
Lemma scan_loop_done (scan : LaserScan F) (n : nat) :
  forall lo coord,
    (0 <= lo)%Z -> Z.to_nat lo + n <= length (ranges scan) ->
    exists pts,
      rasterize_at scan (zseq lo n) = Some pts /\
      for_loop n lo (scan_body scan) coord = Done (coord ++ pts).
Proof.
  induction n as [| n IH]; intros lo coord Hlo Hlen.
  - exists []. simpl. now rewrite app_nil_r.
  - destruct (nth_error (ranges scan) (Z.to_nat lo)) as [r |] eqn:Er.
    2: { apply nth_error_None in Er. lia. }
    destruct (IH (lo + 1)%Z (coord ++ [polar_point scan lo r])) as (pts & Hr & Hl);
      [lia | lia |].
    exists (polar_point scan lo r :: pts). split.
    + simpl. now rewrite Er, Hr.
    + simpl. rewrite scan_body_polar.
      assert (Hi : index (ranges scan) lo = Done r) by (apply index_done; auto).
      rewrite Hi. simpl. rewrite Hl. now rewrite <- app_assoc.
Qed.

(** A window that reaches past the end of the scan is read out of bounds. *)
Lemma scan_loop_out_of_bounds (scan : LaserScan F) (n : nat) :
  forall lo coord,
    (0 <= lo)%Z -> 0 < n -> length (ranges scan) < Z.to_nat lo + n ->
    for_loop n lo (scan_body scan) coord = OutOfBounds.
Proof.
  induction n as [| n IH]; intros lo coord Hlo Hn Hlen; [lia |].
  simpl. rewrite scan_body_polar.
  destruct (nth_error (ranges scan) (Z.to_nat lo)) as [r |] eqn:Er.
  - assert (Hi : index (ranges scan) lo = Done r) by (apply index_done; auto).
    rewrite Hi. simpl.
    assert (Hlt : Z.to_nat lo < length (ranges scan))
      by (apply nth_error_Some; congruence).
    apply IH; lia.
  - unfold index. destruct (Z.ltb_spec lo 0); [reflexivity |].
    now rewrite Er.
Qed.

Lemma rasterize_at_app (scan : LaserScan F) (idx1 idx2 : list Z)
    (pts1 pts2 : list (Point2f F)) :
  rasterize_at scan idx1 = Some pts1 ->
  rasterize_at scan idx2 = Some pts2 ->
  rasterize_at scan (idx1 ++ idx2) = Some (pts1 ++ pts2).
Proof.
  revert pts1. induction idx1 as [| i idx1 IH]; intros pts1 H1 H2; simpl in *.
  - injection H1 as <-. exact H2.
  - destruct (nth_error (ranges scan) (Z.to_nat i)); [| discriminate].
    destruct (rasterize_at scan idx1) as [p |]; [| discriminate].
    injection H1 as <-. now rewrite (IH p eq_refl H2).
Qed.

Lemma rasterize_at_length (scan : LaserScan F) (idx : list Z) :
  forall pts, rasterize_at scan idx = Some pts -> length pts = length idx.
Proof.
  induction idx as [| i idx IH]; intros pts H; simpl in *.
  - now injection H as <-.
  - destruct (nth_error (ranges scan) (Z.to_nat i)); [| discriminate].
    destruct (rasterize_at scan idx) as [p |]; [| discriminate].
    injection H as <-. simpl. now rewrite (IH p eq_refl).
Qed.

Lemma rasterize_at_nth (scan : LaserScan F) (idx : list Z) :
  forall pts k i,
    rasterize_at scan idx = Some pts -> nth_error idx k = Some i ->
    exists r, nth_error (ranges scan) (Z.to_nat i) = Some r /\
              nth_error pts k = Some (polar_point scan i r).
Proof.
  induction idx as [| j idx IH]; intros pts k i H Hk; simpl in *.
  - destruct k; discriminate.
  - destruct (nth_error (ranges scan) (Z.to_nat j)) as [r |] eqn:Er; [| discriminate].
    destruct (rasterize_at scan idx) as [p |]; [| discriminate].
    injection H as <-. destruct k as [| k]; simpl in *.
    + injection Hk as <-. eauto.
    + eauto.
Qed.

Lemma rasterize_at_ext (s1 s2 : LaserScan F) (idx : list Z) :
  angle_min s1 = angle_min s2 ->
  angle_increment s1 = angle_increment s2 ->
  (forall i, In i idx ->
     nth_error (ranges s1) (Z.to_nat i) = nth_error (ranges s2) (Z.to_nat i)) ->
  rasterize_at s1 idx = rasterize_at s2 idx.
Proof.
  intros Ha Hi. induction idx as [| i idx IH]; intros H; simpl; [reflexivity |].
  rewrite (H i (or_introl eq_refl)), IH by (intros; apply H; now right).
  unfold polar_point. now rewrite Ha, Hi.
Qed.

(** With 505 samples or more the callback returns, and the stored set is the
    reference rasterization of the message. *)
Lemma scanCallback_done (st : State F Image) (scan : LaserScan F) :
  505 <= length (ranges scan) ->
  exists pts,
    rasterize_ref scan = Some pts /\
    scanCallback st scan = Done (mkState pts (mFrame st) (mXycarSpeed st)).
Proof.
  intros Hlen.
  destruct (scan_loop_done (scan := scan) (n := 127) (lo := 0) [])
    as (p1 & Hr1 & Hl1); [lia | simpl; lia |].
  destruct (scan_loop_done (scan := scan) (n := 127) (lo := 378) ([] ++ p1))
    as (p2 & Hr2 & Hl2); [lia | change (Z.to_nat 378) with 378; lia |].
  exists (p1 ++ p2). split.
  - unfold rasterize_ref, windows. now apply rasterize_at_app.
  - unfold scanCallback, for_range.
    change (Z.to_nat (126 + 1 - 0)) with 127.
    change (Z.to_nat (504 + 1 - 378)) with 127.
    rewrite Hl1. unfold bind at 1. rewrite Hl2. reflexivity.
Qed.

(** With fewer the callback reads [ranges] out of bounds. *)
Lemma scanCallback_short (st : State F Image) (scan : LaserScan F) :
  length (ranges scan) < 505 -> scanCallback st scan = OutOfBounds.
Proof.
  intros Hlen. unfold scanCallback, for_range.
  change (Z.to_nat (126 + 1 - 0)) with 127.
  change (Z.to_nat (504 + 1 - 378)) with 127.
  destruct (Nat.lt_ge_cases (length (ranges scan)) 127) as [Hs | Hs].
  - rewrite scan_loop_out_of_bounds; [reflexivity | lia | lia | simpl; lia].
  - destruct (scan_loop_done (scan := scan) (n := 127) (lo := 0) [])
      as (p1 & _ & Hl1); [lia | simpl; lia |].
    rewrite Hl1. unfold bind at 1.
    rewrite scan_loop_out_of_bounds;
      [reflexivity | lia | lia | change (Z.to_nat 378) with 378; lia].
Qed.

Lemma windows_length : length windows = 254.
Proof. reflexivity. Qed.

End ScanCallbackFacts.

Section ScanCallbackClaims.

Context {F : Type} {ops : FloatOps F} {Image : Type}.

(** C1.  For a scan with at least 505 range samples the callback stores the
    reference rasterization: one point per beam index of the windows 0-126
    and 378-504, 254 points, in index order window by window, the point of
    index [i] being [(r cos theta, r sin theta)] with [r = ranges[i]] and
    [theta = angle_min + i * angle_increment]; samples outside the two
    windows have no influence on the result. *)
Theorem scanCallback_rasterizes (st : State F Image) (scan : LaserScan F) :
  505 <= length (ranges scan) ->
  exists pts,
    scanCallback st scan = Done (mkState pts (mFrame st) (mXycarSpeed st)) /\
    rasterize_ref scan = Some pts /\
    length pts = 254 /\
    (forall k, k < 127 ->
       exists r, nth_error (ranges scan) k = Some r /\
                 nth_error pts k = Some (polar_point scan (Z.of_nat k) r)) /\
    (forall k, k < 127 ->
       exists r, nth_error (ranges scan) (378 + k) = Some r /\
                 nth_error pts (127 + k) =
                 Some (polar_point scan (Z.of_nat (378 + k)) r)) /\
    (forall scan', same_in_windows scan scan' ->
       505 <= length (ranges scan') ->
       scanCallback st scan' = scanCallback st scan).
Proof.
  intros Hlen.
  destruct (scanCallback_done st Hlen) as (pts & Href & Hcb).
  exists pts. repeat split; auto.
  - rewrite (rasterize_at_length Href). apply windows_length.
  - intros k Hk.
    destruct (rasterize_at_nth (k := k) (i := Z.of_nat k) Href) as (r & Hr & Hp).
    + unfold windows. rewrite nth_error_app1 by (rewrite zseq_length; lia).
      now rewrite zseq_nth by lia.
    + rewrite Nat2Z.id in Hr. eauto.
  - intros k Hk.
    destruct (rasterize_at_nth (k := 127 + k) (i := Z.of_nat (378 + k)) Href)
      as (r & Hr & Hp).
    + unfold windows. rewrite nth_error_app2 by (rewrite zseq_length; lia).
      rewrite zseq_length, zseq_nth by lia. f_equal. lia.
    + rewrite Nat2Z.id in Hr. eauto.
  - intros scan' (Ha & Hi & Hr) Hlen'.
    destruct (scanCallback_done st Hlen') as (pts' & Href' & Hcb').
    rewrite Hcb, Hcb'. unfold rasterize_ref in *.
    rewrite (rasterize_at_ext Ha Hi Hr), Href' in Href.
    now injection Href as ->.
Qed.

(** C9.  The callback indexes [ranges] at 0-126 and 378-504 with no test of
    the sample count: it reads out of bounds exactly when the scan has fewer
    than 505 samples, and returns exactly when it has at least 505. *)
Theorem scanCallback_in_bounds_iff (st : State F Image) (scan : LaserScan F) :
  (scanCallback st scan = OutOfBounds <-> length (ranges scan) < 505) /\
  (returns (scanCallback st scan) = true <-> 505 <= length (ranges scan)).
Proof.
  destruct (Nat.lt_ge_cases (length (ranges scan)) 505) as [Hs | Hs].
  - rewrite (scanCallback_short st Hs). simpl.
    repeat split; intros; auto; try lia; discriminate.
  - destruct (scanCallback_done st Hs) as (pts & _ & ->). simpl.
    repeat split; intros; auto; try lia; discriminate.
Qed.

(** C6.  A scan message replaces the stored point set as a whole: after the
    callback the set is the rasterization of the new message, the same
    whatever the set held before, and the frame and the speed are as they
    were. *)
Theorem scanCallback_replaces (st1 st2 : State F Image) (scan : LaserScan F) :
  505 <= length (ranges scan) ->
  exists st1' st2',
    scanCallback st1 scan = Done st1' /\
    scanCallback st2 scan = Done st2' /\
    rasterize_ref scan = Some (mLidarCoord st1') /\
    mLidarCoord st1' = mLidarCoord st2' /\
    mFrame st1' = mFrame st1 /\
    mXycarSpeed st1' = mXycarSpeed st1.
Proof.
  intros Hlen.
  destruct (scanCallback_done st1 Hlen) as (pts1 & Href1 & Hcb1).
  destruct (scanCallback_done st2 Hlen) as (pts2 & Href2 & Hcb2).
  rewrite Hcb1, Hcb2. do 2 eexists. repeat split; simpl; auto.
  congruence.
Qed.

End ScanCallbackClaims.

Lemma scanCallback_rasterizes_witness :
  505 <= length (ranges scan505) /\
  exists pts,
    scanCallback state0 scan505 =
      Done (mkState pts (mFrame state0) (mXycarSpeed state0)) /\
    rasterize_ref scan505 = Some pts /\
    length pts = 254 /\
    (forall k, k < 127 ->
       exists r, nth_error (ranges scan505) k = Some r /\
                 nth_error pts k = Some (polar_point scan505 (Z.of_nat k) r)) /\
    (forall k, k < 127 ->
       exists r, nth_error (ranges scan505) (378 + k) = Some r /\
                 nth_error pts (127 + k) =
                 Some (polar_point scan505 (Z.of_nat (378 + k)) r)) /\
    (forall scan', same_in_windows scan505 scan' ->
       505 <= length (ranges scan') ->
       scanCallback state0 scan' = scanCallback state0 scan505).
Proof.
  split; [vm_compute; lia |].
  apply (scanCallback_rasterizes state0 (scan := scan505)). vm_compute. lia.
Defined.

Lemma scanCallback_replaces_witness :
  505 <= length (ranges scan505) /\
  exists st1' st2',
    scanCallback state0 scan505 = Done st1' /\
    scanCallback (mkState [mkPoint2f 1%Q 0%Q] tt 0%Q) scan505 = Done st2' /\
    rasterize_ref scan505 = Some (mLidarCoord st1') /\
    mLidarCoord st1' = mLidarCoord st2' /\
    mFrame st1' = mFrame state0 /\
    mXycarSpeed st1' = mXycarSpeed state0.
Proof.
  split; [vm_compute; lia |].
  apply (scanCallback_replaces state0 (mkState [mkPoint2f 1%Q 0%Q] tt 0%Q)
           (scan := scan505)).
  vm_compute. lia.
Defined.

(** The first beam of [scan505] lies on the x axis at range 1, and the
    callback on [scan504] reads index 504 of a 504-sample vector. *)
Example scanCallback_first_point :
  option_map (fun st => nth_error (mLidarCoord st) 0)
    (match scanCallback state0 scan505 with Done st => Some st | _ => None end)
  = Some (Some (mkPoint2f 1%Q 0%Q)).
Proof. vm_compute. reflexivity. Qed.

Example scanCallback_scan504 : scanCallback state0 scan504 = OutOfBounds.
Proof. vm_compute. reflexivity. Qed.

(** ** Loops that walk a vector *)

Lemma skipn_nth_error {A : Type} (v : list A) :
  forall k a, nth_error v k = Some a -> skipn k v = a :: skipn (S k) v.
Proof.
  induction v as [| x v IH]; intros [| k] a H; simpl in *; try discriminate.
  - now injection H as ->.
  - now apply IH.
Qed.

Lemma for_loop_fold {A St : Type} (v : list A) (step : A -> St -> Outcome St)
    (body : Z -> St -> Outcome St) :
  (forall i s, body i s = (a <- index v i ;; step a s)) ->
  forall n lo s,
    (0 <= lo)%Z -> Z.to_nat lo + n <= length v ->
    for_loop n lo body s =
    fold_outcome step (firstn n (skipn (Z.to_nat lo) v)) s.
Proof.
  intros Hbody. induction n as [| n IH]; intros lo s Hlo Hlen; [reflexivity |].
  destruct (nth_error v (Z.to_nat lo)) as [a |] eqn:Ea.
  2: { apply nth_error_None in Ea. lia. }
  simpl for_loop. rewrite Hbody.
  assert (Hi : index v lo = Done a) by (apply index_done; auto).
  rewrite Hi, (skipn_nth_error Ea). simpl.
  destruct (step a s) as [s' | |]; simpl; auto.
  rewrite IH by lia. now replace (Z.to_nat (lo + 1)) with (S (Z.to_nat lo)) by lia.
Qed.

Lemma for_range_fold {A St : Type} (v : list A) (step : A -> St -> Outcome St)
    (body : Z -> St -> Outcome St) (s : St) :
  (forall i s, body i s = (a <- index v i ;; step a s)) ->
  for_range 0 (Z.of_nat (length v)) body s = fold_outcome step v s.
Proof.
  intros Hbody. unfold for_range.
  rewrite (for_loop_fold Hbody) by (simpl; lia).
  replace (Z.to_nat (Z.of_nat (length v) - 0)) with (length v) by lia.
  simpl. now rewrite firstn_all.
Qed.

Lemma fold_outcome_push {A B : Type} (f : A -> B) (v : list A) :
  forall acc,
    fold_outcome (fun a acc => Done (acc ++ [f a])) v acc = Done (acc ++ map f v).
Proof.
  induction v as [| a v IH]; intros acc; simpl.
  - now rewrite app_nil_r.
  - rewrite IH. now rewrite <- app_assoc.
Qed.

(** ** The loop body of [run] *)

Section FusionLoopFacts.

Context {F : Type} {ops : FloatOps F} {Image : Type}.

Variable getProjectPoints : list (Point3f F) -> list (Point2f F).
Variable boundingBox : Image -> list (Point2f F) -> list Z.
Variable getVCSCoordPointsFromLidar : Point3f F -> Point3f F.

#[local] Abbreviation tick :=
  (run_body getProjectPoints boundingBox getVCSCoordPointsFromLidar).

Lemma vcs_fold_done (objectPoints : list (Point3f F)) (idx : list Z) :
  forall acc os,
    Forall2 (picks objectPoints) idx os ->
    fold_outcome (vcs_step getVCSCoordPointsFromLidar objectPoints) idx acc =
    Done (fst acc ++ map getVCSCoordPointsFromLidar os,
          snd acc ++ map (fun o => VcsLine (getVCSCoordPointsFromLidar o)) os).
Proof.
  induction idx as [| b idx IH]; intros acc os H; inversion H; subst; simpl.
  - now rewrite !app_nil_r, <- surjective_pairing.
  - unfold vcs_step at 1.
    match goal with Hp : picks _ b _ |- _ => destruct Hp as [Hb Hn] end.
    assert (Hi : index objectPoints b = Done y) by (apply index_done; auto).
    rewrite Hi. simpl. erewrite IH by eassumption. simpl.
    now rewrite <- !app_assoc.
Qed.

Lemma vcs_fold_inv (objectPoints : list (Point3f F)) (idx : list Z) :
  forall acc r,
    fold_outcome (vcs_step getVCSCoordPointsFromLidar objectPoints) idx acc =
    Done r ->
    exists os, Forall2 (picks objectPoints) idx os.
Proof.
  induction idx as [| b idx IH]; intros acc r H; simpl in H.
  - exists []. constructor.
  - unfold vcs_step at 1 in H.
    destruct (index objectPoints b) as [o | |] eqn:Ei; simpl in H; try discriminate.
    apply index_done in Ei. destruct (IH _ _ H) as [os Hos].
    exists (o :: os). constructor; auto.
Qed.

Lemma vcs_fold_never_raises (objectPoints : list (Point3f F)) (idx : list Z) :
  forall acc,
    fold_outcome (vcs_step getVCSCoordPointsFromLidar objectPoints) idx acc <>
    CvException.
Proof.
  induction idx as [| b idx IH]; intros acc; simpl; [discriminate |].
  unfold vcs_step at 1.
  destruct (index objectPoints b) as [o | |] eqn:Ei; simpl; try discriminate.
  - apply IH.
  - now apply index_never_raises in Ei.
Qed.

Lemma camera_points_done (coord : list (Point2f F)) :
  for_range 0 (Z.of_nat (length coord)) (camera_point_body coord) [] =
  Done (map (camera_of_lidar (of_lit (-0.058))) coord).
Proof.
  rewrite (for_range_fold
             (step := fun p acc =>
                Done (acc ++ [camera_of_lidar (of_lit (-0.058)) p])))
    by reflexivity.
  now rewrite fold_outcome_push.
Qed.

(** The pass in the Idle state. *)
Lemma run_body_idle (st : State F Image) :
  mLidarCoord st = [] -> tick st = Done Skipped.
Proof. intros H. unfold run_body. now rewrite H. Qed.

(** The pass in the Fusing state, as one fold over the associated indices. *)
Lemma run_body_fusing (st : State F Image) :
  mLidarCoord st <> [] ->
  let objs := map (camera_of_lidar (of_lit (-0.058))) (mLidarCoord st) in
  let pts := getProjectPoints objs in
  let idx := boundingBox (mFrame st) pts in
  tick st =
  (r <- fold_outcome (vcs_step getVCSCoordPointsFromLidar objs) idx
          ([], [SizeLine (length (mLidarCoord st))]) ;;
   Done (Fused (mkFusion objs pts idx (fst r) (snd r)))).
Proof.
  intros Hne. unfold run_body.
  destruct (mLidarCoord st) as [| p coord] eqn:Ec; [congruence |].
  change (length (p :: coord) =? 0) with false. cbv iota.
  rewrite camera_points_done. unfold bind at 1.
  now rewrite (for_range_fold
                 (step := vcs_step getVCSCoordPointsFromLidar
                            (map (camera_of_lidar (of_lit (-0.058))) (p :: coord))))
    by reflexivity.
Qed.

(** What a pass that ran to its end computed. *)
Lemma run_body_fused (st : State F Image) (f : Fusion F) :
  tick st = Done (Fused f) ->
  mLidarCoord st <> [] /\
  objectPoints f = map (camera_of_lidar (of_lit (-0.058))) (mLidarCoord st) /\
  lidarImagePoints f = getProjectPoints (objectPoints f) /\
  bboxIdx f = boundingBox (mFrame st) (lidarImagePoints f) /\
  exists os,
    Forall2 (picks (objectPoints f)) (bboxIdx f) os /\
    vcsCoords f = map getVCSCoordPointsFromLidar os /\
    printed f = SizeLine (length (mLidarCoord st)) ::
                map (fun o => VcsLine (getVCSCoordPointsFromLidar o)) os.
Proof.
  intros H.
  assert (Hne : mLidarCoord st <> []).
  { intros He. rewrite (run_body_idle He) in H. discriminate. }
  rewrite (run_body_fusing Hne) in H.
  destruct (fold_outcome _ _ _) as [r | |] eqn:Ef; simpl in H; try discriminate.
  destruct (vcs_fold_inv Ef) as [os Hos].
  rewrite (vcs_fold_done _ Hos) in Ef. injection Ef as <-.
  injection H as <-. simpl. repeat split; auto. exists os. auto.
Qed.

(** A pass runs to its end when every associated index is in range. *)
Lemma run_body_returns (st : State F Image) (os : list (Point3f F)) :
  mLidarCoord st <> [] ->
  let objs := map (camera_of_lidar (of_lit (-0.058))) (mLidarCoord st) in
  let pts := getProjectPoints objs in
  let idx := boundingBox (mFrame st) pts in
  Forall2 (picks objs) idx os ->
  tick st =
  Done (Fused (mkFusion objs pts idx
                 (map getVCSCoordPointsFromLidar os)
                 (SizeLine (length (mLidarCoord st)) ::
                  map (fun o => VcsLine (getVCSCoordPointsFromLidar o)) os))).
Proof.
  intros Hne objs pts idx Hos.
  rewrite (run_body_fusing Hne). fold objs. fold pts. fold idx.
  now rewrite (vcs_fold_done _ Hos).
Qed.

End FusionLoopFacts.

(** ** The two states of the loop *)

Section ModeFacts.

Context {F : Type} {ops : FloatOps F} {Image : Type}.

Variable cv_Mat : Z -> Z -> list Z -> Z -> Outcome Image.
Variable cvtColor_RGB2BGR : Image -> Outcome Image.
Variable getProjectPoints : list (Point3f F) -> list (Point2f F).
Variable boundingBox : Image -> list (Point2f F) -> list Z.
Variable getVCSCoordPointsFromLidar : Point3f F -> Point3f F.

#[local] Abbreviation tick :=
  (run_body getProjectPoints boundingBox getVCSCoordPointsFromLidar).
#[local] Abbreviation spin := (spinOnce cv_Mat cvtColor_RGB2BGR).
#[local] Abbreviation loop :=
  (run_loop cv_Mat cvtColor_RGB2BGR getProjectPoints boundingBox
     getVCSCoordPointsFromLidar).

Lemma mode_idle (st : State F Image) : mode st = Idle <-> mLidarCoord st = [].
Proof.
  unfold mode. destruct (mLidarCoord st); simpl; split; congruence.
Qed.

Lemma mode_cases (st : State F Image) : mode st = Idle \/ mode st = Fusing.
Proof. destruct (mode st); auto. Qed.

Lemma scanCallback_fusing (st st' : State F Image) (scan : LaserScan F) :
  scanCallback st scan = Done st' -> mode st' = Fusing.
Proof.
  intros H.
  destruct (Nat.lt_ge_cases (length (ranges scan)) 505) as [Hs | Hs].
  - rewrite (scanCallback_short st Hs) in H. discriminate.
  - destruct (scanCallback_done st Hs) as (pts & Href & Hcb).
    rewrite Hcb in H. injection H as <-.
    apply rasterize_at_length in Href. rewrite windows_length in Href.
    unfold mode. simpl. now rewrite Href.
Qed.

Lemma imageCallback_inv (st st' : State F Image) (message : ImageMessage) :
  imageCallback cv_Mat cvtColor_RGB2BGR st message = Done st' ->
  frame_of cv_Mat cvtColor_RGB2BGR message = Done (mFrame st') /\
  mLidarCoord st' = mLidarCoord st /\ mXycarSpeed st' = mXycarSpeed st.
Proof.
  unfold imageCallback.
  destruct (frame_of cv_Mat cvtColor_RGB2BGR message) as [frame | |];
    simpl; try discriminate.
  intros [= <-]. auto.
Qed.

Lemma spinOnce_app (q1 q2 : list (Message F)) :
  forall st, spin st (q1 ++ q2) = (st1 <- spin st q1 ;; spin st1 q2).
Proof.
  induction q1 as [| m q1 IH]; intros st; simpl; [reflexivity |].
  destruct (dispatch cv_Mat cvtColor_RGB2BGR st m); simpl; auto.
Qed.

Lemma spinOnce_mode (q : list (Message F)) :
  forall st st',
    spin st q = Done st' ->
    (mode st' = Idle <-> mode st = Idle /\ existsb is_scan q = false).
Proof.
  induction q as [| m q IH]; intros st st' H; simpl in H.
  - injection H as <-. simpl. tauto.
  - destruct m as [message | scan]; simpl in H.
    + destruct (imageCallback cv_Mat cvtColor_RGB2BGR st message)
        as [st1 | |] eqn:Ecb; simpl in H; try discriminate.
      destruct (imageCallback_inv Ecb) as (_ & Hc & _).
      rewrite (IH _ _ H). simpl. unfold mode. rewrite Hc. tauto.
    + destruct (scanCallback st scan) as [st1 | |] eqn:Ecb; simpl in H;
        try discriminate.
      rewrite (IH _ _ H), (scanCallback_fusing Ecb). simpl.
      split; [intros [[=] _] | intros [_ [=]]].
Qed.

Lemma spinOnce_images (q : list (Message F)) :
  forall st st',
    existsb is_scan q = false ->
    spin st q = Done st' -> mLidarCoord st' = mLidarCoord st.
Proof.
  induction q as [| m q IH]; intros st st' Hq H; simpl in *.
  - now injection H as <-.
  - destruct m as [message | scan]; simpl in *; [| discriminate].
    destruct (imageCallback cv_Mat cvtColor_RGB2BGR st message)
      as [st1 | |] eqn:Ecb; simpl in H; try discriminate.
    destruct (imageCallback_inv Ecb) as (_ & Hc & _).
    rewrite (IH _ _ Hq H). exact Hc.
Qed.

Lemma run_body_skips_iff (st : State F Image) (t : Tick F) :
  tick st = Done t -> (t = Skipped <-> mode st = Idle).
Proof.
  intros H. rewrite mode_idle. split.
  - intros ->. destruct (mLidarCoord st) eqn:Ec; [reflexivity |].
    rewrite run_body_fusing in H by congruence.
    destruct (fold_outcome _ _ _); simpl in H; discriminate.
  - intros He. rewrite (run_body_idle _ _ _ He) in H. now injection H as <-.
Qed.

Lemma run_loop_ticks (queues : list (list (Message F))) :
  forall st st' ticks,
    loop st queues = Done (st', ticks) ->
    length ticks = length queues /\
    (mode st' = Idle <->
     mode st = Idle /\ existsb is_scan (concat queues) = false) /\
    forall k t, nth_error ticks k = Some t ->
      (t = Skipped <->
       mode st = Idle /\ existsb is_scan (concat (firstn (S k) queues)) = false).
Proof.
  induction queues as [| q queues IH]; intros st st' ticks H; simpl in H.
  - injection H as <- <-. simpl. split; [reflexivity |]. split; [tauto |].
    intros k t Hk. destruct k; discriminate.
  - destruct (spin st q) as [st1 | |] eqn:Es; simpl in H; try discriminate.
    destruct (tick st1) as [t1 | |] eqn:Et; simpl in H; try discriminate.
    destruct (loop st1 queues) as [[st2 ticks2] | |] eqn:El; simpl in H;
      try discriminate.
    injection H as <- <-.
    destruct (IH _ _ _ El) as (Hlen & Hmode & Hticks).
    pose proof (spinOnce_mode Es) as Hspin.
    split; [simpl; now rewrite Hlen |]. split.
    + simpl. rewrite existsb_app, orb_false_iff. tauto.
    + intros [| k] t Hk; simpl in Hk.
      * injection Hk as <-. rewrite (run_body_skips_iff Et), Hspin.
        simpl. now rewrite app_nil_r.
      * rewrite (Hticks _ _ Hk), Hspin.
        change (concat (firstn (S (S k)) (q :: queues)))
          with (q ++ concat (firstn (S k) queues)).
        rewrite existsb_app, orb_false_iff. tauto.
Qed.

(** A loop that meets no scan message is as its image callbacks are: it
    fails where they fail, and every pass is a skip. *)
Lemma run_loop_images (queues : list (list (Message F))) :
  forall st,
    mLidarCoord st = [] ->
    existsb is_scan (concat queues) = false ->
    loop st queues =
    (st' <- spin st (concat queues) ;;
     Done (st', repeat Skipped (length queues))).
Proof.
  induction queues as [| q queues IH]; intros st Hst H; simpl in *.
  - reflexivity.
  - rewrite existsb_app, orb_false_iff in H. destruct H as [Hq Hqs].
    rewrite spinOnce_app.
    destruct (spin st q) as [st1 | |] eqn:Es; simpl; auto.
    assert (Hc : mLidarCoord st1 = []).
    { rewrite (spinOnce_images Hq Es). exact Hst. }
    rewrite (run_body_idle _ _ _ Hc). simpl. rewrite (IH st1 Hc Hqs).
    destruct (spin st1 (concat queues)); reflexivity.
Qed.

(** C5.  The points submitted to projection are the stored points, each
    through the same permutation of the axes and with the same height:
    [(y, h, -x)], [h] the literal -0.058. *)
Theorem run_camera_frame_points (st : State F Image) (f : Fusion F) :
  tick st = Done (Fused f) ->
  objectPoints f = map (camera_of_lidar (of_lit (-0.058))) (mLidarCoord st) /\
  lidarImagePoints f = getProjectPoints (objectPoints f) /\
  forall i p, nth_error (mLidarCoord st) i = Some p ->
    nth_error (objectPoints f) i =
    Some (mkPoint3f (p2y p) (of_lit (-0.058)) (fneg (p2x p))).
Proof.
  intros H. destruct (run_body_fused H) as (_ & Hobj & Hpts & _).
  repeat split; auto.
  intros i p Hp. rewrite Hobj, nth_error_map, Hp. reflexivity.
Qed.

(** C7.  In the Idle state a pass of the loop returns at [continue], with
    nothing projected, associated, converted or printed, and without error.
    From the initial state, as long as no scan message arrives the loop is
    as its image callbacks are: it fails only where one of them fails, and
    when they return it returns with every pass skipped and the state still
    Idle.  When the loop returns, a pass is a skip exactly when no scan
    message has been dispatched so far: the state leaves Idle at the first
    scan message and a pass in the Fusing state is never a skip. *)
Theorem fusion_idle_until_first_scan (frame0 : Image) (speed0 : F)
    (queues : list (list (Message F))) :
  (forall st, mode st = Idle -> tick st = Done Skipped) /\
  (existsb is_scan (concat queues) = false ->
   loop (initial frame0 speed0) queues =
   (st <- spin (initial frame0 speed0) (concat queues) ;;
    Done (st, repeat Skipped (length queues)))) /\
  (existsb is_scan (concat queues) = false ->
   forall st,
     spin (initial frame0 speed0) (concat queues) = Done st ->
     loop (initial frame0 speed0) queues =
       Done (st, repeat Skipped (length queues)) /\
     mode st = Idle) /\
  (forall st ticks,
     loop (initial frame0 speed0) queues = Done (st, ticks) ->
     length ticks = length queues /\
     (mode st = Idle <-> existsb is_scan (concat queues) = false) /\
     forall k t, nth_error ticks k = Some t ->
       (t = Skipped <->
        existsb is_scan (concat (firstn (S k) queues)) = false)).
Proof.
  split; [| split; [| split]].
  - intros st Hm. apply run_body_idle. now apply mode_idle.
  - intros H. now apply run_loop_images.
  - intros H st Hs.
    rewrite (run_loop_images (st := initial frame0 speed0) eq_refl H), Hs.
    split; [reflexivity |].
    apply mode_idle. now rewrite (spinOnce_images H Hs).
  - intros st ticks H.
    destruct (run_loop_ticks H) as (Hlen & Hmode & Hticks).
    assert (Hi : mode (initial frame0 speed0) = Idle) by reflexivity.
    split; [exact Hlen |]. split; [tauto |].
    intros k t Hk. rewrite (Hticks _ _ Hk). tauto.
Qed.

End ModeFacts.

(** ** Projection and association as the specification describes them *)

Lemma Forall2_nth_error_l {A B : Type} (R : A -> B -> Prop) (l1 : list A) :
  forall l2 k a,
    Forall2 R l1 l2 -> nth_error l1 k = Some a ->
    exists b, nth_error l2 k = Some b /\ R a b.
Proof.
  induction l1 as [| x l1 IH]; intros l2 k a H Hk; inversion H; subst.
  - destruct k; discriminate.
  - destruct k as [| k]; simpl in *.
    + injection Hk as <-. eauto.
    + eauto.
Qed.

Lemma Forall_exists_Forall2 {A B : Type} (R : A -> B -> Prop) (l1 : list A) :
  Forall (fun a => exists b, R a b) l1 -> exists l2, Forall2 R l1 l2.
Proof.
  induction 1 as [| a l1 [b Hb] _ [l2 IH]].
  - exists []. constructor.
  - exists (b :: l2). now constructor.
Qed.

Section SpecModelFacts.

Context {F : Type} {ops : FloatOps F} {flag : SpecModel.PixelFlag F}
  {Image : Type}.

Variable T : SpecModel.ExtrinsicTransform F.
Variable K : SpecModel.IntrinsicModel F.
Variable detect : Image -> list Rect.
Variable getVCSCoordPointsFromLidar : Point3f F -> Point3f F.

#[local] Abbreviation project1 := (SpecModel.project_point T K).
#[local] Abbreviation tick :=
  (run_body (SpecModel.getProjectPoints T K) (SpecModel.boundingBox detect)
     getVCSCoordPointsFromLidar).
#[local] Abbreviation height := (of_lit (-0.058) : F).

Lemma getProjectPoints_nth (points : list (Point3f F)) (i : nat) :
  nth_error (SpecModel.getProjectPoints T K points) i =
  option_map project1 (nth_error points i).
Proof. unfold SpecModel.getProjectPoints. apply nth_error_map. Qed.

Lemma associate_from_In (rects : list Rect) (projected : list (Point2f F)) :
  forall i b,
    In b (SpecModel.associate_from i projected rects) <->
    exists p, (i <= b)%Z /\
              nth_error projected (Z.to_nat (b - i)) = Some p /\
              SpecModel.associated rects p = true.
Proof.
  induction projected as [| q projected IH]; intros i b; simpl.
  - split; [tauto | intros (p & _ & Hp & _)].
    destruct (Z.to_nat (b - i)); discriminate.
  - assert (Hrec :
      In b (SpecModel.associate_from (i + 1) projected rects) <->
      exists p, (i < b)%Z /\
                nth_error (q :: projected) (Z.to_nat (b - i)) = Some p /\
                SpecModel.associated rects p = true).
    { rewrite IH. split; intros (p & Hb & Hp & Hin); exists p.
      - replace (Z.to_nat (b - i)) with (S (Z.to_nat (b - (i + 1)))) by lia.
        repeat split; auto; lia.
      - replace (Z.to_nat (b - i)) with (S (Z.to_nat (b - (i + 1)))) in Hp by lia.
        repeat split; auto; lia. }
    destruct (SpecModel.associated rects q) eqn:Eq; simpl; rewrite Hrec.
    + split.
      * intros [<- | (p & Hb & Hp & Hin)].
        -- exists q. rewrite Z.sub_diag. repeat split; auto; lia.
        -- exists p. repeat split; auto; lia.
      * intros (p & Hb & Hp & Hin).
        destruct (Z.eq_dec i b) as [<- | Hne]; [now left | right].
        exists p. repeat split; auto; lia.
    + split.
      * intros (p & Hb & Hp & Hin). exists p. repeat split; auto; lia.
      * intros (p & Hb & Hp & Hin).
        destruct (Z.eq_dec i b) as [<- | Hne].
        -- rewrite Z.sub_diag in Hp. simpl in Hp. congruence.
        -- exists p. repeat split; auto; lia.
Qed.

Lemma associate_In (rects : list Rect) (projected : list (Point2f F)) (b : Z) :
  In b (SpecModel.associate projected rects) <->
  exists p, picks projected b p /\ SpecModel.in_range p = true /\
            SpecModel.inside_any rects p = true.
Proof.
  unfold SpecModel.associate, picks. rewrite associate_from_In.
  rewrite Z.sub_0_r. unfold SpecModel.associated.
  split; intros (p & H); exists p; rewrite andb_true_iff in *; tauto.
Qed.

(** A flagged pixel is out of range. *)
Lemma invalid_pixel_out_of_range :
  SpecModel.in_range (F := F) SpecModel.invalid_pixel = false.
Proof.
  unfold SpecModel.in_range. now rewrite SpecModel.invalid_pixel_flagged.
Qed.

(** A pixel in range is the pinhole projection of a point of positive
    depth. *)
Lemma project_point_in_range (o : Point3f F) :
  SpecModel.in_range (project1 o) = true ->
  SpecModel.behind_camera T o = false /\
  project1 o = SpecModel.pinhole K (SpecModel.to_camera T o).
Proof.
  unfold SpecModel.project_point.
  destruct (SpecModel.behind_camera T o); [| auto].
  rewrite invalid_pixel_out_of_range. discriminate.
Qed.

Lemma inside_any_In (rects : list Rect) (p : Point2f F) :
  SpecModel.inside_any rects p = true <->
  exists r, In r rects /\ SpecModel.contains r p = true.
Proof. unfold SpecModel.inside_any. apply existsb_exists. Qed.

Lemma associate_no_rect (projected : list (Point2f F)) :
  forall i, SpecModel.associate_from i projected [] = [].
Proof.
  induction projected as [| p projected IH]; intros i; simpl; auto.
  unfold SpecModel.associated. simpl. now rewrite andb_false_r.
Qed.

(** Every associated index reads a camera-frame point. *)
Lemma associated_picks (objs : list (Point3f F)) (rects : list Rect) (b : Z) :
  In b (SpecModel.associate (SpecModel.getProjectPoints T K objs) rects) ->
  exists o, picks objs b o /\ SpecModel.in_range (project1 o) = true /\
            SpecModel.inside_any rects (project1 o) = true.
Proof.
  intros H. apply associate_In in H. destruct H as (p & [Hb Hp] & Hr & Hin).
  rewrite getProjectPoints_nth in Hp.
  destruct (nth_error objs (Z.to_nat b)) as [o |] eqn:Eo; [| discriminate].
  injection Hp as <-. exists o. unfold picks. auto.
Qed.

(** With these two components a pass always returns. *)
Lemma spec_run_body_total (st : State F Image) : exists t, tick st = Done t.
Proof.
  destruct (mLidarCoord st) as [| p coord] eqn:Ec.
  - exists Skipped. now apply run_body_idle.
  - assert (Hne : mLidarCoord st <> []) by congruence.
    set (objs := map (camera_of_lidar height) (mLidarCoord st)).
    set (idx := SpecModel.boundingBox detect (mFrame st)
                  (SpecModel.getProjectPoints T K objs)).
    destruct (Forall_exists_Forall2 (R := picks objs) (l1 := idx)) as [os Hos].
    { apply Forall_forall. intros b Hb.
      destruct (associated_picks Hb) as (o & Ho & _). eauto. }
    eexists. apply (run_body_returns _ Hne Hos).
Qed.

End SpecModelFacts.

Section SpecModelClaims.

Context {F : Type} {ops : FloatOps F} {flag : SpecModel.PixelFlag F}
  {Image : Type}.

Variable T : SpecModel.ExtrinsicTransform F.
Variable K : SpecModel.IntrinsicModel F.
Variable detect : Image -> list Rect.
Variable getVCSCoordPointsFromLidar : Point3f F -> Point3f F.

#[local] Abbreviation project1 := (SpecModel.project_point T K).
#[local] Abbreviation tick :=
  (run_body (SpecModel.getProjectPoints T K) (SpecModel.boundingBox detect)
     getVCSCoordPointsFromLidar).
#[local] Abbreviation height := (of_lit (-0.058) : F).

(** C4.  Projection gives one pixel per point, pixel [i] for point [i]; so
    in a pass of the loop every index [b] that association returns reads, in
    the list of points that went into projection, the point whose pixel
    matched, which is the camera-frame image of the stored LiDAR point [b],
    and the obstacle computed for [b] is the conversion of that point. *)
Theorem association_index_recovers_point (st : State F Image) (f : Fusion F) :
  tick st = Done (Fused f) ->
  (forall points : list (Point3f F),
     length (SpecModel.getProjectPoints T K points) = length points /\
     forall i, nth_error (SpecModel.getProjectPoints T K points) i =
               option_map project1 (nth_error points i)) /\
  length (lidarImagePoints f) = length (mLidarCoord st) /\
  length (vcsCoords f) = length (bboxIdx f) /\
  forall k b, nth_error (bboxIdx f) k = Some b ->
    exists l o,
      picks (mLidarCoord st) b l /\
      picks (objectPoints f) b o /\
      o = camera_of_lidar height l /\
      picks (lidarImagePoints f) b (project1 o) /\
      SpecModel.inside_any (detect (mFrame st)) (project1 o) = true /\
      nth_error (vcsCoords f) k = Some (getVCSCoordPointsFromLidar o).
Proof.
  intros H.
  destruct (run_body_fused H) as (_ & Hobj & Hpts & Hidx & os & Hos & Hvcs & _).
  split; [| split; [| split]].
  - intros points. split; [apply length_map | apply getProjectPoints_nth].
  - rewrite Hpts, Hobj. unfold SpecModel.getProjectPoints.
    now rewrite !length_map.
  - rewrite Hvcs, length_map. symmetry. eapply Forall2_length; eauto.
  - intros k b Hk.
    destruct (Forall2_nth_error_l Hos Hk) as (o & Hok & Hpick).
    assert (Hin : In b (bboxIdx f)) by (eapply nth_error_In; eauto).
    rewrite Hidx, Hpts in Hin. unfold SpecModel.boundingBox in Hin.
    destruct (associated_picks Hin) as (o' & [_ Ho'] & _ & Hinside).
    destruct Hpick as [Hb Ho].
    assert (o' = o) by congruence. subst o'.
    pose proof Ho as Hl. rewrite Hobj, nth_error_map in Hl.
    destruct (nth_error (mLidarCoord st) (Z.to_nat b)) as [l |] eqn:El;
      [| discriminate].
    injection Hl as Hl. exists l, o. unfold picks.
    repeat split; auto.
    + rewrite Hpts, getProjectPoints_nth, Ho. reflexivity.
    + rewrite Hvcs, nth_error_map, Hok. reflexivity.
Qed.

(** C8.  When the detector reports no rectangle a pass returns and hands on
    no obstacle: in the Fusing state it runs to its end with no associated
    index; and association of an empty list of pixels gives no index. *)
Theorem empty_box_list_gives_no_obstacle (st : State F Image) :
  detect (mFrame st) = [] ->
  (exists t,
     tick st = Done t /\ obstacles t = [] /\
     (mode st = Fusing ->
      exists f, t = Fused f /\ bboxIdx f = [] /\ vcsCoords f = [])) /\
  (forall projected : list (Point2f F),
     SpecModel.associate projected [] = []) /\
  (forall rects : list Rect, SpecModel.associate (F := F) [] rects = []).
Proof.
  intros Hd. split; [| split].
  - destruct (spec_run_body_total T K detect getVCSCoordPointsFromLidar st)
      as [t Ht].
    exists t. split; [exact Ht |].
    destruct t as [| f].
    + split; [reflexivity |]. intros Hm.
      assert (Hi : mode st = Idle) by (now apply (run_body_skips_iff Ht)).
      congruence.
    + destruct (run_body_fused Ht) as (_ & _ & _ & Hidx & os & Hos & Hvcs & _).
      assert (Hnil : bboxIdx f = []).
      { rewrite Hidx. unfold SpecModel.boundingBox, SpecModel.associate.
        rewrite Hd. apply associate_no_rect. }
      rewrite Hnil in Hos. inversion Hos; subst. simpl in Hvcs.
      split; [exact Hvcs |]. intros _. exists f. auto.
  - intros projected. apply associate_no_rect.
  - reflexivity.
Qed.

(** C3.  In a pass of the loop with the projection and the association of
    the specification, a point of non-positive depth in the camera frame is
    flagged by projection: its pixel is the invalid one, which is out of
    range, and not the value of the pinhole formula; its index is not among
    the associated ones and no obstacle is computed for it.  Every obstacle
    of the pass comes from a point of positive depth whose pixel is in
    range and inside a detected rectangle.  The loop itself filters
    nothing: whatever the projection and the association are, [run] hands
    the whole result of the one to the other, and computes one obstacle for
    every index that comes back. *)
Theorem behind_camera_points_are_excluded (st : State F Image)
    (f : Fusion F) :
  tick st = Done (Fused f) ->
  (forall i o,
     nth_error (objectPoints f) i = Some o ->
     SpecModel.behind_camera T o = true ->
     nth_error (lidarImagePoints f) i = Some SpecModel.invalid_pixel /\
     SpecModel.is_invalid (project1 o) = true /\
     SpecModel.in_range (project1 o) = false /\
     ~ In (Z.of_nat i) (bboxIdx f)) /\
  (forall k v,
     nth_error (vcsCoords f) k = Some v ->
     exists b o,
       nth_error (bboxIdx f) k = Some b /\
       picks (objectPoints f) b o /\
       SpecModel.behind_camera T o = false /\
       picks (lidarImagePoints f) b
         (SpecModel.pinhole K (SpecModel.to_camera T o)) /\
       SpecModel.in_range (project1 o) = true /\
       SpecModel.inside_any (detect (mFrame st)) (project1 o) = true /\
       v = getVCSCoordPointsFromLidar o) /\
  behind_camera_excluded T K detect getVCSCoordPointsFromLidar /\
  (forall (getProjectPoints : list (Point3f F) -> list (Point2f F))
          (boundingBox : Image -> list (Point2f F) -> list Z)
          (st' : State F Image) (f' : Fusion F),
     run_body getProjectPoints boundingBox getVCSCoordPointsFromLidar st' =
       Done (Fused f') ->
     length (objectPoints f') = length (mLidarCoord st') /\
     lidarImagePoints f' = getProjectPoints (objectPoints f') /\
     bboxIdx f' = boundingBox (mFrame st') (lidarImagePoints f') /\
     length (vcsCoords f') = length (bboxIdx f')).
Proof.
  intros H.
  assert (Hexcl : forall (st0 : State F Image) (f0 : Fusion F) i o,
            tick st0 = Done (Fused f0) ->
            nth_error (objectPoints f0) i = Some o ->
            SpecModel.behind_camera T o = true ->
            ~ In (Z.of_nat i) (bboxIdx f0)).
  { intros st0 f0 i o H0 Ho Hb Hin.
    destruct (run_body_fused H0) as (_ & _ & Hpts & Hidx & _).
    rewrite Hidx, Hpts in Hin. unfold SpecModel.boundingBox in Hin.
    destruct (associated_picks Hin) as (o' & [_ Ho'] & Hr & _).
    rewrite Nat2Z.id in Ho'. assert (o' = o) by congruence. subst o'.
    destruct (project_point_in_range Hr) as [Hfront _]. congruence. }
  destruct (run_body_fused H) as (_ & Hobj & Hpts & Hidx & os & Hos & Hvcs & _).
  split; [| split; [| split]].
  - intros i o Ho Hb.
    assert (Hp : project1 o = SpecModel.invalid_pixel)
      by (unfold SpecModel.project_point; now rewrite Hb).
    split; [| split; [| split]].
    + rewrite Hpts, getProjectPoints_nth, Ho. simpl. now rewrite Hp.
    + rewrite Hp. apply SpecModel.invalid_pixel_flagged.
    + rewrite Hp. apply invalid_pixel_out_of_range.
    + exact (Hexcl st f i o H Ho Hb).
  - intros k v Hk. rewrite Hvcs, nth_error_map in Hk.
    destruct (nth_error os k) as [o |] eqn:Eo; [| discriminate].
    injection Hk as <-.
    assert (Hlen : length (bboxIdx f) = length os)
      by (eapply Forall2_length; eauto).
    destruct (nth_error (bboxIdx f) k) as [b |] eqn:Eb.
    2:{ apply nth_error_None in Eb.
        assert (Hlt : k < length os) by (apply nth_error_Some; congruence).
        lia. }
    destruct (Forall2_nth_error_l Hos Eb) as (o' & Ho' & Hpick).
    assert (o' = o) by congruence. subst o'.
    assert (Hin : In b (bboxIdx f)) by (eapply nth_error_In; eauto).
    rewrite Hidx, Hpts in Hin. unfold SpecModel.boundingBox in Hin.
    destruct (associated_picks Hin) as (o' & [_ Ho''] & Hr & Hinside).
    destruct Hpick as [Hb Ho].
    assert (o' = o) by congruence. subst o'.
    destruct (project_point_in_range Hr) as [Hfront Hpin].
    exists b, o. unfold picks. repeat split; auto.
    rewrite Hpts, getProjectPoints_nth, Ho. simpl. now rewrite Hpin.
  - exact Hexcl.
  - intros gp bb st' f' H'.
    destruct (run_body_fused H') as (_ & Hobj' & Hpts' & Hidx' & os' & Hos' & Hvcs' & _).
    repeat split; auto.
    + rewrite Hobj'. apply length_map.
    + rewrite Hvcs', length_map. symmetry. eapply Forall2_length; eauto.
Qed.

End SpecModelClaims.

(** ** The examples, evaluated *)

Example scanCallback_scan_axis : scanCallback state0 scan_axis = Done state_axis.
Proof. vm_compute. reflexivity. Qed.

Example run_body_state_axis :
  run_body (SpecModel.getProjectPoints facingT pinholeK)
    (SpecModel.boundingBox one_box) vcs_identity state_axis =
  Done (Fused fusion_axis).
Proof. vm_compute. reflexivity. Qed.

Example run_body_state_axis_behind :
  run_body (SpecModel.getProjectPoints identityT pinholeK)
    (SpecModel.boundingBox box_behind) vcs_identity state_axis =
  Done (Fused fusion_behind).
Proof. vm_compute. reflexivity. Qed.

Example pinhole_behind_in_box :
  SpecModel.inside_any (box_behind tt)
    (SpecModel.pinhole pinholeK (SpecModel.to_camera identityT near_point)) =
  true.
Proof. vm_compute. reflexivity. Qed.

Example run_body_state_axis_no_box :
  run_body (SpecModel.getProjectPoints facingT pinholeK)
    (SpecModel.boundingBox no_box) vcs_identity state_axis =
  Done (Fused fusion_axis_no_box).
Proof. vm_compute. reflexivity. Qed.

Example run_loop_first_scan :
  run_loop mat_unit cvt_unit (SpecModel.getProjectPoints facingT pinholeK)
    (SpecModel.boundingBox one_box) vcs_identity (initial tt 0%Q)
    queues_first_scan =
  Done (state_axis, [Skipped; Fused fusion_axis; Fused fusion_axis]).
Proof. vm_compute. reflexivity. Qed.

Lemma run_camera_frame_points_witness :
  objectPoints fusion_axis =
    map (camera_of_lidar (of_lit (-0.058))) (mLidarCoord state_axis) /\
  lidarImagePoints fusion_axis =
    SpecModel.getProjectPoints facingT pinholeK (objectPoints fusion_axis) /\
  forall i p, nth_error (mLidarCoord state_axis) i = Some p ->
    nth_error (objectPoints fusion_axis) i =
    Some (mkPoint3f (p2y p) (of_lit (-0.058)) (fneg (p2x p))).
Proof.
  apply (run_camera_frame_points
           (getProjectPoints := SpecModel.getProjectPoints facingT pinholeK)
           (boundingBox := SpecModel.boundingBox one_box)
           (getVCSCoordPointsFromLidar := vcs_identity)).
  vm_compute. reflexivity.
Defined.

Lemma fusion_idle_until_first_scan_witness :
  run_body (SpecModel.getProjectPoints facingT pinholeK)
    (SpecModel.boundingBox one_box) vcs_identity state0 = Done Skipped /\
  (run_loop mat_unit cvt_unit (SpecModel.getProjectPoints facingT pinholeK)
     (SpecModel.boundingBox one_box) vcs_identity (initial tt 0%Q)
     queues_images =
   Done (state0, [Skipped; Skipped]) /\
   mode state0 = Idle) /\
  length [Skipped; Fused fusion_axis; Fused fusion_axis] =
    length queues_first_scan /\
  (mode state_axis = Idle <->
   existsb is_scan (concat queues_first_scan) = false) /\
  forall k t,
    nth_error [Skipped; Fused fusion_axis; Fused fusion_axis] k = Some t ->
    (t = Skipped <->
     existsb is_scan (concat (firstn (S k) queues_first_scan)) = false).
Proof.
  split; [| split].
  - apply (proj1 (fusion_idle_until_first_scan mat_unit cvt_unit
                    (SpecModel.getProjectPoints facingT pinholeK)
                    (SpecModel.boundingBox one_box) vcs_identity tt 0%Q
                    queues_images)).
    reflexivity.
  - apply (proj1 (proj2 (proj2 (fusion_idle_until_first_scan mat_unit cvt_unit
                    (SpecModel.getProjectPoints facingT pinholeK)
                    (SpecModel.boundingBox one_box) vcs_identity tt 0%Q
                    queues_images)))).
    + reflexivity.
    + vm_compute. reflexivity.
  - apply (proj2 (proj2 (proj2 (fusion_idle_until_first_scan mat_unit cvt_unit
                    (SpecModel.getProjectPoints facingT pinholeK)
                    (SpecModel.boundingBox one_box) vcs_identity tt 0%Q
                    queues_first_scan)))).
    vm_compute. reflexivity.
Defined.

Lemma association_index_recovers_point_witness :
  length (lidarImagePoints fusion_axis) = length (mLidarCoord state_axis) /\
  length (vcsCoords fusion_axis) = length (bboxIdx fusion_axis) /\
  forall k b, nth_error (bboxIdx fusion_axis) k = Some b ->
    exists l o,
      picks (mLidarCoord state_axis) b l /\
      picks (objectPoints fusion_axis) b o /\
      o = camera_of_lidar (of_lit (-0.058)) l /\
      picks (lidarImagePoints fusion_axis) b
        (SpecModel.project_point facingT pinholeK o) /\
      SpecModel.inside_any (one_box (mFrame state_axis))
        (SpecModel.project_point facingT pinholeK o) = true /\
      nth_error (vcsCoords fusion_axis) k = Some (vcs_identity o).
Proof.
  apply (association_index_recovers_point
           (T := facingT) (K := pinholeK) (detect := one_box)
           (getVCSCoordPointsFromLidar := vcs_identity) (st := state_axis)).
  vm_compute. reflexivity.
Defined.

Lemma empty_box_list_gives_no_obstacle_witness :
  no_box (mFrame state_axis) = [] /\
  exists t,
    run_body (SpecModel.getProjectPoints facingT pinholeK)
      (SpecModel.boundingBox no_box) vcs_identity state_axis = Done t /\
    obstacles t = [] /\
    (mode state_axis = Fusing ->
     exists f, t = Fused f /\ bboxIdx f = [] /\ vcsCoords f = []).
Proof.
  split; [reflexivity |].
  apply (empty_box_list_gives_no_obstacle facingT pinholeK
           (detect := no_box) vcs_identity (st := state_axis)).
  reflexivity.
Defined.

Lemma behind_camera_points_are_excluded_witness :
  SpecModel.behind_camera identityT near_point = true /\
  nth_error (lidarImagePoints fusion_behind) 0 =
    Some SpecModel.invalid_pixel /\
  SpecModel.is_invalid (SpecModel.project_point identityT pinholeK near_point) =
    true /\
  SpecModel.in_range (SpecModel.project_point identityT pinholeK near_point) =
    false /\
  ~ In (Z.of_nat 0) (bboxIdx fusion_behind).
Proof.
  split; [vm_compute; reflexivity |].
  refine (proj1 (behind_camera_points_are_excluded
                   (T := identityT) (K := pinholeK) (detect := box_behind)
                   (getVCSCoordPointsFromLidar := vcs_identity)
                   (st := state_axis) (f := fusion_behind) _)
            0%nat near_point _ _).
  - vm_compute. reflexivity.
  - vm_compute. reflexivity.
  - vm_compute. reflexivity.
Defined.

(** ** The detector's candidates *)

Section BoundingBoxFacts.

Context {F : Type} {ops : FloatOps F} {flag : SpecModel.PixelFlag F}.

Variable mConfThreshold : F.
Variable imgCols imgRows : Z.

#[local] Abbreviation row_step := (row_body mConfThreshold imgCols imgRows).
#[local] Abbreviation ext := (extend imgCols imgRows).
#[local] Abbreviation ok := (accepts mConfThreshold).

Lemma index_nth_default {A : Type} (v : list A) (i : Z) (d : A) :
  (0 <= i)%Z -> Z.to_nat i < length v ->
  index v i = Done (nth (Z.to_nat i) v d).
Proof.
  intros Hi Hk. apply index_done. split; [exact Hi |].
  now apply nth_error_nth'.
Qed.

Lemma extend_nil (cand : Candidates F) : ext cand [] = cand.
Proof. destruct cand. unfold extend. simpl. now rewrite !app_nil_r. Qed.

Lemma extend_app (cand : Candidates F) (k1 k2 : list (list F)) :
  ext (ext cand k1) k2 = ext cand (k1 ++ k2).
Proof.
  unfold extend. simpl. now rewrite !map_app, !app_assoc.
Qed.

Lemma row_body_spec (row : list F) (cand : Candidates F) :
  row_step row cand =
  if long_enough row
  then Done (ext cand (if ok row then [row] else []))
  else CvException.
Proof.
  unfold row_body, long_enough.
  destruct (Nat.ltb_spec (length row) 5) as [Hs | Hl].
  - destruct (Nat.leb_spec 5 (length row)); [lia | reflexivity].
  - destruct (Nat.leb_spec 5 (length row)); [| lia].
    fold (best_score row). fold (best_class row).
    fold (accepts mConfThreshold row).
    destruct (ok row) eqn:Ea.
    + rewrite (index_nth_default (v := row) (i := 0) (of_int 0)) by (simpl; lia).
      rewrite (index_nth_default (v := row) (i := 1) (of_int 0)) by (simpl; lia).
      rewrite (index_nth_default (v := row) (i := 2) (of_int 0)) by (simpl; lia).
      rewrite (index_nth_default (v := row) (i := 3) (of_int 0)) by (simpl; lia).
      change (Z.to_nat 0) with 0%nat. change (Z.to_nat 1) with 1%nat.
      change (Z.to_nat 2) with 2%nat. change (Z.to_nat 3) with 3%nat.
      unfold bind. unfold extend, box_of_row. cbv zeta.
      unfold accepts in Ea. apply andb_prop in Ea. destruct Ea as [_ Ec].
      apply Z.eqb_eq in Ec. now rewrite Ec.
    + now rewrite extend_nil.
Qed.

Lemma rows_loop_spec (rows : list (list F)) :
  forall cand,
    rows_loop mConfThreshold imgCols imgRows rows cand =
    if forallb long_enough rows
    then Done (ext cand (filter ok rows))
    else CvException.
Proof.
  induction rows as [| row rows IH]; intros cand; simpl.
  - now rewrite extend_nil.
  - rewrite row_body_spec. destruct (long_enough row); simpl; [| reflexivity].
    rewrite IH. destruct (forallb long_enough rows); [| reflexivity].
    rewrite extend_app. now destruct (ok row).
Qed.

Lemma outs_loop_spec (outs : list (list (list F))) :
  forall cand,
    outs_loop mConfThreshold imgCols imgRows outs cand =
    if forallb long_enough (concat outs)
    then Done (ext cand (filter ok (concat outs)))
    else CvException.
Proof.
  induction outs as [| out outs IH]; intros cand; simpl.
  - now rewrite extend_nil.
  - rewrite rows_loop_spec, forallb_app, filter_app.
    destruct (forallb long_enough out); simpl; [| reflexivity].
    rewrite IH. destruct (forallb long_enough (concat outs)); [| reflexivity].
    now rewrite extend_app.
Qed.

Lemma accepts_class (row : list F) :
  ok row = true <->
  fgtb (best_score row) mConfThreshold = true /\ best_class row = 4%Z.
Proof.
  unfold accepts. rewrite andb_true_iff, Z.eqb_eq. tauto.
Qed.

Lemma draw_fold_class (mClassNames : list string) (cand : Candidates F)
    (l : list Z) :
  Forall (fun c => c = 4%Z) (classIds cand) ->
  forall acc drawn,
    Forall (fun d => drawnClass d = 4%Z) acc ->
    fold_outcome (draw_step mClassNames cand) l acc = Done drawn ->
    Forall (fun d => drawnClass d = 4%Z) drawn.
Proof.
  intros Hall. induction l as [| idx l IH]; intros acc drawn Hacc Hf;
    simpl in Hf.
  - now injection Hf as <-.
  - unfold draw_step at 1 in Hf.
    destruct (index (boxes cand) idx) as [box | |]; simpl in Hf;
      try discriminate.
    destruct (index (confidences cand) idx) as [conf | |]; simpl in Hf;
      try discriminate.
    destruct (index (classIds cand) idx) as [cls | |] eqn:Ec; simpl in Hf;
      try discriminate.
    destruct (index mClassNames cls) as [name | |]; simpl in Hf;
      try discriminate.
    apply IH in Hf; auto.
    apply Forall_app. split; auto. constructor; auto. simpl.
    apply index_done in Ec. destruct Ec as [_ Ec].
    apply nth_error_In in Ec.
    eapply Forall_forall in Hall; eauto.
Qed.

Lemma wrap_int_range (z : Z) :
  (-2147483648 <= wrap_int z <= 2147483647)%Z.
Proof.
  unfold wrap_int.
  pose proof (Z.mod_pos_bound (z + 2147483648) 4294967296 eq_refl). lia.
Qed.

Lemma wrap_int_id (z : Z) :
  (-2147483648 <= z <= 2147483647)%Z -> wrap_int z = z.
Proof.
  intros H. unfold wrap_int. rewrite Z.mod_small by lia. lia.
Qed.


End BoundingBoxFacts.

Example candidates_outs3 :
  candidates (1 # 2)%Q 640 480 outs3 =
  Done (mkCandidates [4%Z] [0.9%Q] [mkRect 256 144 128 192]).
Proof. vm_compute. reflexivity. Qed.

Example boundingBox_drawn_outs3 :
  boundingBox_drawn (1 # 2)%Q 640 480 keep_all (2 # 5)%Q six_names outs3 =
  Done drawn3.
Proof. vm_compute. reflexivity. Qed.

Example run_body_drawn3 :
  run_body (SpecModel.getProjectPoints facingT pinholeK)
    (SpecModel.boundingBox detect_drawn3) vcs_identity state_axis =
  Done (Fused fusion_drawn3).
Proof. vm_compute. reflexivity. Qed.


(** ** The calibration wrapper *)

Section SolvePnPFacts.

Context {F : Type} {ops : FloatOps F}.

Variable cv_solvePnP :
  list (Point3f F) -> list (Point2f F) -> list (list F) -> list F ->
  Outcome (Point3f F * Point3f F).
Variable cv_projectPoints :
  list (Point3f F) -> Point3f F -> Point3f F -> list (list F) -> list F ->
  Outcome (list (Point2f F)).
Variable K : list (list F).
Variable D : list F.

#[local] Abbreviation wrapper := (solvePnP cv_solvePnP cv_projectPoints K D).

Lemma projected_loop_never_raises (ip pp : list (Point2f F)) (n : nat) :
  forall lo out,
    for_loop n lo (projected_line_body ip pp) out <> CvException.
Proof.
  induction n as [| n IH]; intros lo out; simpl; [discriminate |].
  unfold projected_line_body at 1.
  destruct (index ip lo) as [a | |] eqn:Ea; simpl; try discriminate.
  - destruct (index pp lo) as [b | |] eqn:Eb; simpl; try discriminate.
    + apply IH.
    + now apply index_never_raises in Eb.
  - now apply index_never_raises in Ea.
Qed.

Lemma projected_loop_done (ip pp : list (Point2f F)) (n : nat) :
  forall lo out,
    (0 <= lo)%Z ->
    Z.to_nat lo + n <= length ip -> Z.to_nat lo + n <= length pp ->
    exists lines,
      for_loop n lo (projected_line_body ip pp) out = Done (out ++ lines).
Proof.
  induction n as [| n IH]; intros lo out Hlo Hip Hpp; simpl.
  - exists []. now rewrite app_nil_r.
  - unfold projected_line_body at 1.
    rewrite (index_nth_default (v := ip) (i := lo) (mkPoint2f (of_int 0) (of_int 0)))
      by lia.
    rewrite (index_nth_default (v := pp) (i := lo) (mkPoint2f (of_int 0) (of_int 0)))
      by lia.
    simpl.
    edestruct (IH (lo + 1)%Z) as [lines Hl]; [lia | lia | lia |].
    rewrite Hl. eexists. now rewrite <- app_assoc.
Qed.

Lemma projected_loop_out_of_bounds (ip pp : list (Point2f F)) (n : nat) :
  forall lo out,
    (0 <= lo)%Z -> Z.to_nat lo + n <= length pp ->
    Z.to_nat lo <= length ip -> length ip < Z.to_nat lo + n ->
    for_loop n lo (projected_line_body ip pp) out = OutOfBounds.
Proof.
  induction n as [| n IH]; intros lo out Hlo Hpp Hle Hip; [lia |].
  simpl. unfold projected_line_body at 1.
  destruct (index ip lo) as [a | |] eqn:Ea; simpl; auto.
  - apply index_done in Ea. destruct Ea as [_ Ea].
    assert (Z.to_nat lo < length ip) by (apply nth_error_Some; congruence).
    rewrite (index_nth_default (v := pp) (i := lo) a) by lia. simpl.
    apply IH; lia.
  - now apply index_never_raises in Ea.
Qed.

(** The wrapper raises exactly when one of its two library calls does. *)
Lemma solvePnP_raises_iff (ip : list (Point2f F)) (op : list (Point3f F)) :
  wrapper ip op = CvException <->
  cv_solvePnP op ip K D = CvException \/
  exists pose,
    cv_solvePnP op ip K D = Done pose /\
    cv_projectPoints op (fst pose) (snd pose) K D = CvException.
Proof.
  unfold solvePnP.
  destruct (cv_solvePnP op ip K D) as [pose | |]; simpl.
  - destruct (cv_projectPoints op (fst pose) (snd pose) K D) as [pp | |] eqn:Ep;
      simpl.
    + split.
      * intros H. now apply projected_loop_never_raises in H.
      * intros [H | (pose' & H & H')]; [discriminate |].
        injection H as <-. congruence.
    + split; [discriminate |].
      intros [H | (pose' & H & H')]; [discriminate |].
      injection H as <-. congruence.
    + split; [eauto |]. reflexivity.
  - split; [discriminate |].
    intros [H | (pose' & H & _)]; discriminate.
  - split; auto.
Qed.

(** The wrapper returns, the pose printed, whenever the library calls
    return: nothing in it looks at the geometry of the points. *)
Lemma solvePnP_returns (ip : list (Point2f F)) (op : list (Point3f F))
    (pose : Point3f F * Point3f F) (pp : list (Point2f F)) :
  cv_solvePnP op ip K D = Done pose ->
  cv_projectPoints op (fst pose) (snd pose) K D = Done pp ->
  length pp <= length ip ->
  exists out,
    wrapper ip op = Done out /\
    In (RvecLine (fst pose)) out /\ In (TvecLine (snd pose)) out.
Proof.
  intros Hs Hp Hlen. unfold solvePnP. rewrite Hs. simpl. rewrite Hp. simpl.
  unfold for_range.
  edestruct (projected_loop_done (ip := ip) (pp := pp)
               (n := Z.to_nat (Z.of_nat (length pp) - 0)) (lo := 0))
    as [lines Hl]; [lia | simpl; lia | simpl; lia |].
  rewrite Hl. eexists. split; [reflexivity |].
  rewrite !in_app_iff. simpl. auto 8.
Qed.

(** With more projected points than image points the loop over the
    projected points reads [imagePoints] past its end. *)
Lemma solvePnP_reads_past_the_end (ip : list (Point2f F))
    (op : list (Point3f F)) (pose : Point3f F * Point3f F)
    (pp : list (Point2f F)) :
  cv_solvePnP op ip K D = Done pose ->
  cv_projectPoints op (fst pose) (snd pose) K D = Done pp ->
  length ip < length pp ->
  wrapper ip op = OutOfBounds.
Proof.
  intros Hs Hp Hlen. unfold solvePnP, for_range. rewrite Hs. simpl.
  rewrite Hp. simpl. apply projected_loop_out_of_bounds; simpl; lia.
Qed.

End SolvePnPFacts.

Lemma run_stops_at_calibration {F : Type} {ops : FloatOps F} {Image : Type}
    (cv_Mat : Z -> Z -> list Z -> Z -> Outcome Image)
    (cvt : Image -> Outcome Image)
    (getLidarExtrinsicMatrix getVCSExtrinsicMatrix :
       list (Point2f F) -> list (Point3f F) -> Outcome unit)
    (getProjectPoints : list (Point3f F) -> list (Point2f F))
    (boundingBox : Image -> list (Point2f F) -> list Z)
    (getVCSCoordPointsFromLidar : Point3f F -> Point3f F)
    (st : State F Image) (queues : list (list (Message F))) :
  getLidarExtrinsicMatrix Generate2DPoints Generate3DLidarPoints = CvException \/
  (getLidarExtrinsicMatrix Generate2DPoints Generate3DLidarPoints = Done tt /\
   getVCSExtrinsicMatrix Generate2DPoints Generate3DVCSPoints = CvException) ->
  run cv_Mat cvt getLidarExtrinsicMatrix getVCSExtrinsicMatrix
    getProjectPoints boundingBox getVCSCoordPointsFromLidar st queues =
  CvException.
Proof.
  unfold run. intros [H | [H1 H2]].
  - now rewrite H.
  - now rewrite H1, H2.
Qed.

Lemma CvModel_entry_assertion {F : Type} (pose : Point3f F * Point3f F)
    (op : list (Point3f F)) (ip : list (Point2f F))
    (K : list (list F)) (D : list F) :
  length ip <> length op \/ length op < 4 ->
  CvModel.solvePnP pose op ip K D = CvException.
Proof.
  intros H. unfold CvModel.solvePnP, CvModel.entry_ok.
  destruct (Nat.leb_spec 4 (length op)); simpl; [| reflexivity].
  destruct (Nat.eqb_spec (length op) (length ip)); [lia | reflexivity].
Qed.

(** C2, as the code has it.  The wrapper makes no check of its own and
    raises exactly when one of its two library calls raises.  With a pose
    solver that raises on unequal counts or on fewer than four pairs, the
    wrapper raises on such sets.  On any set the library accepts, coplanar
    or not, the wrapper does not raise: it returns with the pose printed
    when the projection has at most as many points as there are image
    points, and reads [imagePoints] past its end otherwise.  An exception
    out of a calibration call leaves [run] before the loop is entered. *)
Theorem solvePnP_raises_as_the_library_does {F : Type} {ops : FloatOps F}
    (cv_solvePnP : list (Point3f F) -> list (Point2f F) -> list (list F) ->
                   list F -> Outcome (Point3f F * Point3f F))
    (cv_projectPoints : list (Point3f F) -> Point3f F -> Point3f F ->
                        list (list F) -> list F -> Outcome (list (Point2f F)))
    (K : list (list F)) (D : list F) :
  (forall op ip,
     length ip <> length op \/ length op < 4 ->
     cv_solvePnP op ip K D = CvException) ->
  (forall ip op,
     length ip <> length op \/ length op < 4 ->
     solvePnP cv_solvePnP cv_projectPoints K D ip op = CvException) /\
  (forall ip op,
     solvePnP cv_solvePnP cv_projectPoints K D ip op = CvException <->
     cv_solvePnP op ip K D = CvException \/
     exists pose,
       cv_solvePnP op ip K D = Done pose /\
       cv_projectPoints op (fst pose) (snd pose) K D = CvException) /\
  (forall ip op pose pp,
     cv_solvePnP op ip K D = Done pose ->
     cv_projectPoints op (fst pose) (snd pose) K D = Done pp ->
     solvePnP cv_solvePnP cv_projectPoints K D ip op <> CvException /\
     (length pp <= length ip ->
      exists out,
        solvePnP cv_solvePnP cv_projectPoints K D ip op = Done out /\
        In (RvecLine (fst pose)) out /\ In (TvecLine (snd pose)) out) /\
     (length ip < length pp ->
      solvePnP cv_solvePnP cv_projectPoints K D ip op = OutOfBounds)) /\
  (forall (Image : Type) (cv_Mat : Z -> Z -> list Z -> Z -> Outcome Image)
          (cvt : Image -> Outcome Image)
          (getLidarExtrinsicMatrix getVCSExtrinsicMatrix :
             list (Point2f F) -> list (Point3f F) -> Outcome unit)
          (getProjectPoints : list (Point3f F) -> list (Point2f F))
          (boundingBox : Image -> list (Point2f F) -> list Z)
          (getVCSCoordPointsFromLidar : Point3f F -> Point3f F)
          (st : State F Image) (queues : list (list (Message F))),
     getLidarExtrinsicMatrix Generate2DPoints Generate3DLidarPoints
       = CvException \/
     (getLidarExtrinsicMatrix Generate2DPoints Generate3DLidarPoints = Done tt /\
      getVCSExtrinsicMatrix Generate2DPoints Generate3DVCSPoints = CvException) ->
     run cv_Mat cvt getLidarExtrinsicMatrix getVCSExtrinsicMatrix
       getProjectPoints boundingBox getVCSCoordPointsFromLidar st queues =
     CvException).
Proof.
  intros Hassert. split; [| split; [| split]].
  - intros ip op H. apply solvePnP_raises_iff. left. now apply Hassert.
  - intros ip op. apply solvePnP_raises_iff.
  - intros ip op pose pp Hs Hp. split; [| split].
    + intros H. apply solvePnP_raises_iff in H.
      destruct H as [H | (pose' & H & H')]; [congruence |].
      assert (pose' = pose) by congruence. subst pose'. congruence.
    + intros Hlen. exact (solvePnP_returns Hs Hp Hlen).
    + intros Hlen. exact (solvePnP_reads_past_the_end Hs Hp Hlen).
  - intros Image cv_Mat cvt gl gv gp bb gc st queues.
    apply run_stops_at_calibration.
Qed.

(** The wrapper on the catalog of VCS points, which all lie in the plane
    z = 1.8: it returns, with the pose and the twenty projections printed. *)
Example solvePnP_on_the_VCS_catalog :
  option_map (@length _)
    (match solvePnP (CvModel.solvePnP pose0)
             (CvModel.projectPoints (SpecModel.project_point identityT pinholeK))
             matrixK [] Generate2DPoints Generate3DVCSPoints
     with Done out => Some out | _ => None end)
  = Some 25.
Proof. vm_compute. reflexivity. Qed.

Lemma VCS_catalog_coplanar : coplanar Generate3DVCSPoints.
Proof.
  exists 0%Q, 0%Q, 1%Q, (9 # 5)%Q. split.
  - intros (_ & _ & H). discriminate H.
  - repeat constructor.
Qed.

(** With any pose solver that returns on the catalog of VCS points, and any
    projection that then returns at most twenty pixels, the wrapper returns
    on that catalog, so it does not reject every unusable set. *)
Lemma coplanar_catalog_not_rejected
    (cv_solvePnP : list (Point3f Q) -> list (Point2f Q) -> list (list Q) ->
                   list Q -> Outcome (Point3f Q * Point3f Q))
    (cv_projectPoints : list (Point3f Q) -> Point3f Q -> Point3f Q ->
                        list (list Q) -> list Q -> Outcome (list (Point2f Q)))
    (K : list (list Q)) (D : list Q)
    (pose : Point3f Q * Point3f Q) (pp : list (Point2f Q)) :
  cv_solvePnP Generate3DVCSPoints Generate2DPoints K D = Done pose ->
  cv_projectPoints Generate3DVCSPoints (fst pose) (snd pose) K D = Done pp ->
  length pp <= 20 ->
  ~ rejects_unusable_sets cv_solvePnP cv_projectPoints K D.
Proof.
  intros Hs Hp Hlen Hclaim.
  specialize (Hclaim Generate2DPoints Generate3DVCSPoints
                (or_intror (or_intror VCS_catalog_coplanar))).
  destruct (solvePnP_returns (ip := Generate2DPoints) Hs Hp Hlen)
    as (out & Hout & _).
  congruence.
Qed.

(** C2, as the specification words it, fails: the catalog of VCS points is
    coplanar, hence unusable in the specification's sense, and the wrapper
    returns on it. *)
Lemma coplanar_catalog_is_accepted :
  ~ rejects_unusable_sets (CvModel.solvePnP pose0)
      (CvModel.projectPoints (SpecModel.project_point identityT pinholeK))
      matrixK [].
Proof.
  apply (@coplanar_catalog_not_rejected _ _ matrixK [] pose0
           (map (SpecModel.project_point identityT pinholeK)
                Generate3DVCSPoints)).
  - reflexivity.
  - reflexivity.
  - vm_compute. lia.
Qed.

Lemma solvePnP_raises_as_the_library_does_witness :
  solvePnP (CvModel.solvePnP pose0)
    (CvModel.projectPoints (SpecModel.project_point identityT pinholeK))
    matrixK [] three_image three_object = CvException /\
  solvePnP (CvModel.solvePnP pose0)
    (CvModel.projectPoints (SpecModel.project_point identityT pinholeK))
    matrixK [] (firstn 19 Generate2DPoints) Generate3DVCSPoints = CvException /\
  run mat_unit cvt_unit calibrate_model calibrate_raises
    (SpecModel.getProjectPoints facingT pinholeK)
    (SpecModel.boundingBox one_box) vcs_identity
    (initial tt 0%Q) queues_first_scan = CvException.
Proof.
  destruct (@solvePnP_raises_as_the_library_does Q QFloat.ops
              (CvModel.solvePnP pose0)
              (CvModel.projectPoints (SpecModel.project_point identityT pinholeK))
              matrixK []
              (fun op ip => @CvModel_entry_assertion Q pose0 op ip matrixK []))
    as (Hreject & _ & _ & Hrun).
  split; [| split].
  - apply Hreject. right. vm_compute. lia.
  - apply Hreject. left. vm_compute. lia.
  - apply Hrun. right. split; vm_compute; reflexivity.
Defined.

(* ================================================================== *)
(** * Further properties of the code *)

(** ** Indexing *)

Lemma index_out_of_bounds {A : Type} (v : list A) (i : Z) :
  index v i = OutOfBounds <-> (i < 0)%Z \/ (Z.of_nat (length v) <= i)%Z.
Proof.
  unfold index. destruct (Z.ltb_spec i 0); [tauto |].
  destruct (nth_error v (Z.to_nat i)) eqn:E.
  - assert (Z.to_nat i < length v) by (apply nth_error_Some; congruence).
    split; [discriminate | lia].
  - apply nth_error_None in E. split; [lia | reflexivity].
Qed.

(** ** Callbacks and the loop *)

Section LoopComposition.

Context {F : Type} {ops : FloatOps F} {Image : Type}.

Variable cv_Mat : Z -> Z -> list Z -> Z -> Outcome Image.
Variable cvtColor_RGB2BGR : Image -> Outcome Image.
Variable getProjectPoints : list (Point3f F) -> list (Point2f F).
Variable boundingBox : Image -> list (Point2f F) -> list Z.
Variable getVCSCoordPointsFromLidar : Point3f F -> Point3f F.

#[local] Abbreviation tick :=
  (run_body getProjectPoints boundingBox getVCSCoordPointsFromLidar).
#[local] Abbreviation spin := (spinOnce cv_Mat cvtColor_RGB2BGR).
#[local] Abbreviation loop :=
  (run_loop cv_Mat cvtColor_RGB2BGR getProjectPoints boundingBox
     getVCSCoordPointsFromLidar).
#[local] Abbreviation frame := (frame_of cv_Mat cvtColor_RGB2BGR).
#[local] Abbreviation camera := (camera_of_lidar (of_lit (-0.058) : F)).

Lemma scanCallback_inv (st st' : State F Image) (scan : LaserScan F) :
  scanCallback st scan = Done st' ->
  505 <= length (ranges scan) /\
  rasterize_ref scan = Some (mLidarCoord st') /\
  mFrame st' = mFrame st /\ mXycarSpeed st' = mXycarSpeed st.
Proof.
  intros H.
  destruct (Nat.lt_ge_cases (length (ranges scan)) 505) as [Hs | Hs].
  - rewrite (scanCallback_short st Hs) in H. discriminate.
  - destruct (scanCallback_done st Hs) as (pts & Href & Hcb).
    rewrite Hcb in H. injection H as <-. auto.
Qed.

Lemma scanCallback_never_raises (st : State F Image) (scan : LaserScan F) :
  scanCallback st scan <> CvException.
Proof.
  destruct (Nat.lt_ge_cases (length (ranges scan)) 505) as [Hs | Hs].
  - now rewrite (scanCallback_short st Hs).
  - destruct (scanCallback_done st Hs) as (pts & _ & ->). discriminate.
Qed.

Lemma imageCallback_outcome (st : State F Image) (message : ImageMessage) :
  imageCallback cv_Mat cvtColor_RGB2BGR st message =
  match frame message with
  | Done image => Done (mkState (mLidarCoord st) image (mXycarSpeed st))
  | OutOfBounds => OutOfBounds
  | CvException => CvException
  end.
Proof. unfold imageCallback. destruct (frame message); reflexivity. Qed.

(** [spinOnce] raises only where the construction or the conversion of a
    frame does. *)
Lemma spinOnce_raises (q : list (Message F)) :
  forall st,
    spin st q = CvException ->
    exists message, In (ImageMsg message) q /\ frame message = CvException.
Proof.
  induction q as [| m q IH]; intros st H; simpl in H; [discriminate |].
  destruct m as [message | scan]; simpl in H.
  - rewrite imageCallback_outcome in H.
    destruct (frame message) as [image | |] eqn:Ef; simpl in H;
      try discriminate.
    + destruct (IH _ H) as (m' & Hin & Hm'). exists m'. simpl. auto.
    + exists message. simpl. auto.
  - destruct (scanCallback st scan) as [st1 | |] eqn:E; simpl in H;
      try discriminate.
    + destruct (IH _ H) as (m' & Hin & Hm'). exists m'. simpl. auto.
    + now apply scanCallback_never_raises in E.
Qed.

(** A queue with a short scan message does not return. *)
Lemma spinOnce_short_scan (q : list (Message F)) :
  forall st,
    existsb short_scan q = true ->
    spin st q = OutOfBounds \/ spin st q = CvException.
Proof.
  induction q as [| m q IH]; intros st H; simpl in *; [discriminate |].
  destruct m as [message | scan]; simpl in *.
  - rewrite imageCallback_outcome.
    destruct (frame message); simpl; auto.
  - destruct (Nat.ltb_spec (length (ranges scan)) 505) as [Hs | Hs].
    + rewrite (scanCallback_short st Hs). auto.
    + destruct (scanCallback_done st Hs) as (pts & _ & ->). simpl.
      now apply IH.
Qed.

Lemma run_body_never_raises (st : State F Image) : tick st <> CvException.
Proof.
  destruct (mLidarCoord st) as [| p coord] eqn:Ec.
  - now rewrite (run_body_idle _ _ _ Ec).
  - rewrite run_body_fusing by congruence.
    destruct (fold_outcome _ _ _) eqn:Ef; simpl; try discriminate.
    now apply vcs_fold_never_raises in Ef.
Qed.

Lemma vcs_fold_out_of_bounds (objs : list (Point3f F)) (idx : list Z) :
  forall acc,
    fold_outcome (vcs_step getVCSCoordPointsFromLidar objs) idx acc =
      OutOfBounds <->
    exists b, In b idx /\ ((b < 0)%Z \/ (Z.of_nat (length objs) <= b)%Z).
Proof.
  induction idx as [| b idx IH]; intros acc; simpl.
  - split; [discriminate | intros (b & [] & _)].
  - unfold vcs_step at 1.
    destruct (index objs b) as [o | |] eqn:Ei; simpl.
    + rewrite IH. apply index_done in Ei. destruct Ei as [Hb Ho].
      assert (Z.to_nat b < length objs) by (apply nth_error_Some; congruence).
      split.
      * intros (b' & Hin & Hbad). eauto.
      * intros (b' & [<- | Hin] & Hbad); [lia | eauto].
    + apply index_out_of_bounds in Ei. split; [eauto | reflexivity].
    + now apply index_never_raises in Ei.
Qed.

Lemma run_loop_raises (queues : list (list (Message F))) :
  forall st,
    loop st queues = CvException ->
    exists message,
      In (ImageMsg message) (concat queues) /\ frame message = CvException.
Proof.
  induction queues as [| q queues IH]; intros st H; simpl in H;
    [discriminate |].
  destruct (spin st q) as [st1 | |] eqn:Es; simpl in H; try discriminate.
  - destruct (tick st1) as [t1 | |] eqn:Et; simpl in H; try discriminate.
    + destruct (loop st1 queues) as [[st2 ticks2] | |] eqn:El; simpl in H;
        try discriminate.
      destruct (IH _ El) as (m & Hin & Hm). exists m. simpl.
      rewrite in_app_iff. auto.
    + now apply run_body_never_raises in Et.
  - destruct (spinOnce_raises Es) as (m & Hin & Hm). exists m. simpl.
    rewrite in_app_iff. auto.
Qed.

Lemma run_loop_stops_at_short_scan (queues : list (list (Message F))) :
  forall st,
    existsb short_scan (concat queues) = true ->
    loop st queues = OutOfBounds \/ loop st queues = CvException.
Proof.
  induction queues as [| q queues IH]; intros st H; simpl in H;
    [discriminate |].
  rewrite existsb_app, orb_true_iff in H. simpl.
  destruct (existsb short_scan q) eqn:Eq.
  - destruct (spinOnce_short_scan st Eq) as [-> | ->]; auto.
  - destruct H as [H | H]; [discriminate |].
    destruct (spin st q) as [st1 | |] eqn:Es; simpl; auto.
    destruct (tick st1) as [t1 | |] eqn:Et; simpl; auto.
    destruct (IH st1 H) as [-> | ->]; auto.
Qed.

(** X1.  After [spinOnce] the stored point set is the rasterization of the
    last scan message of the queue and the frame is the conversion of its
    last image message, whatever came before them; without a message of a
    kind the member is as it was; the speed is never touched. *)
Theorem spinOnce_last_message_wins (q : list (Message F)) :
  forall st st',
    spin st q = Done st' ->
    mXycarSpeed st' = mXycarSpeed st /\
    match last_image q with
    | Some message =>
        frame_of cv_Mat cvtColor_RGB2BGR message = Done (mFrame st')
    | None => mFrame st' = mFrame st
    end /\
    match last_scan q with
    | Some scan => rasterize_ref scan = Some (mLidarCoord st')
    | None => mLidarCoord st' = mLidarCoord st
    end.
Proof.
  induction q as [| m q IH]; intros st st' H; simpl in H.
  - injection H as <-. simpl. auto.
  - destruct m as [message | scan]; simpl in H.
    + destruct (imageCallback cv_Mat cvtColor_RGB2BGR st message)
        as [st1 | |] eqn:Ecb; simpl in H; try discriminate.
      destruct (imageCallback_inv Ecb) as (Hfr & Hco & Hsp).
      destruct (IH _ _ H) as (Hs & Hf & Hl). simpl.
      destruct (last_image q), (last_scan q); simpl in *;
        repeat split; congruence.
    + destruct (scanCallback st scan) as [st1 | |] eqn:Ecb; simpl in H;
        try discriminate.
      destruct (scanCallback_inv Ecb) as (_ & Href & Hfr & Hsp).
      destruct (IH _ _ H) as (Hs & Hf & Hl). simpl.
      destruct (last_image q), (last_scan q); simpl in *;
        repeat split; congruence.
Qed.

(** X2.  The image callback and the scan callback write different members.
    Dispatching an image message and a scan message in either order gives
    the same outcome, out of bounds included, unless the frame cannot be
    built and the scan is short: then the callback that runs first decides
    how the dispatch fails.  In particular one order returns exactly when
    the other does, and with the same state. *)
Theorem callbacks_commute (st : State F Image) (message : ImageMessage)
    (scan : LaserScan F) :
  (frame_of cv_Mat cvtColor_RGB2BGR message <> CvException \/
   505 <= length (ranges scan) ->
   spinOnce cv_Mat cvtColor_RGB2BGR st [ImageMsg message; ScanMsg scan] =
   spinOnce cv_Mat cvtColor_RGB2BGR st [ScanMsg scan; ImageMsg message]) /\
  (frame_of cv_Mat cvtColor_RGB2BGR message = CvException ->
   length (ranges scan) < 505 ->
   spinOnce cv_Mat cvtColor_RGB2BGR st [ImageMsg message; ScanMsg scan] =
     CvException /\
   spinOnce cv_Mat cvtColor_RGB2BGR st [ScanMsg scan; ImageMsg message] =
     OutOfBounds) /\
  (forall st',
     spinOnce cv_Mat cvtColor_RGB2BGR st [ImageMsg message; ScanMsg scan] =
       Done st' <->
     spinOnce cv_Mat cvtColor_RGB2BGR st [ScanMsg scan; ImageMsg message] =
       Done st').
Proof.
  assert (Hlong : 505 <= length (ranges scan) ->
            spin st [ImageMsg message; ScanMsg scan] =
            spin st [ScanMsg scan; ImageMsg message]).
  { intros Hs. simpl. rewrite imageCallback_outcome.
    destruct (scanCallback_done st Hs) as (p1 & Hr1 & ->). simpl.
    rewrite imageCallback_outcome.
    destruct (frame message) as [image | |]; simpl; auto.
    destruct (scanCallback_done
                (mkState (mLidarCoord st) image (mXycarSpeed st)) Hs)
      as (p2 & Hr2 & ->).
    simpl. congruence. }
  assert (Hshort : length (ranges scan) < 505 ->
            spin st [ImageMsg message; ScanMsg scan] =
              match frame message with
              | CvException => CvException
              | _ => OutOfBounds
              end /\
            spin st [ScanMsg scan; ImageMsg message] = OutOfBounds).
  { intros Hs. simpl. rewrite imageCallback_outcome.
    rewrite (scanCallback_short st Hs).
    destruct (frame message) as [image | |]; simpl; auto.
    now rewrite (scanCallback_short _ Hs). }
  split; [| split].
  - intros H.
    destruct (Nat.lt_ge_cases (length (ranges scan)) 505) as [Hs | Hs];
      [| now apply Hlong].
    destruct H as [H | H]; [| lia].
    destruct (Hshort Hs) as [-> ->].
    destruct (frame message); congruence.
  - intros Hf Hs. destruct (Hshort Hs) as [-> ->]. now rewrite Hf.
  - intros st'.
    destruct (Nat.lt_ge_cases (length (ranges scan)) 505) as [Hs | Hs].
    + destruct (Hshort Hs) as [-> ->].
      destruct (frame message); split; discriminate.
    + now rewrite (Hlong Hs).
Qed.

(** X4.  One scan message with fewer than 505 samples, in whatever pass it
    is dispatched, keeps the loop from returning: nothing in [run] or in
    the callback guards against it.  The loop ends in an out-of-bounds
    read, unless the construction or the conversion of a frame raises
    first. *)
Theorem run_loop_short_scan (queues : list (list (Message F))) :
  forall st,
    existsb short_scan (concat queues) = true ->
    (forall st' ticks,
       run_loop cv_Mat cvtColor_RGB2BGR getProjectPoints boundingBox
         getVCSCoordPointsFromLidar st queues <> Done (st', ticks)) /\
    ((forall message,
        In (ImageMsg message) (concat queues) ->
        frame_of cv_Mat cvtColor_RGB2BGR message <> CvException) ->
     run_loop cv_Mat cvtColor_RGB2BGR getProjectPoints boundingBox
       getVCSCoordPointsFromLidar st queues = OutOfBounds) /\
    (run_loop cv_Mat cvtColor_RGB2BGR getProjectPoints boundingBox
       getVCSCoordPointsFromLidar st queues = CvException ->
     exists message,
       In (ImageMsg message) (concat queues) /\
       frame_of cv_Mat cvtColor_RGB2BGR message = CvException).
Proof.
  intros st H.
  pose proof (@run_loop_stops_at_short_scan queues st H) as Hstop.
  split; [| split].
  - intros st' ticks. destruct Hstop as [-> | ->]; discriminate.
  - intros Himg. destruct Hstop as [Hl | Hl]; [exact Hl |].
    destruct (@run_loop_raises queues st Hl) as (m & Hin & Hm).
    now apply Himg in Hin.
  - apply (@run_loop_raises queues st).
Qed.

(** X5.  A pass of the loop body never raises, and it reads [objectPoints]
    out of bounds exactly when there are stored points and association
    returns an index that is negative or not below their number. *)
Theorem run_body_out_of_bounds_iff (st : State F Image) :
  tick st <> CvException /\
  (tick st = OutOfBounds <->
   mLidarCoord st <> [] /\
   exists b,
     In b (boundingBox (mFrame st)
             (getProjectPoints (map camera (mLidarCoord st)))) /\
     ((b < 0)%Z \/ (Z.of_nat (length (mLidarCoord st)) <= b)%Z)).
Proof.
  split; [apply run_body_never_raises |].
  destruct (mLidarCoord st) as [| p coord] eqn:Ec.
  - rewrite (run_body_idle _ _ _ Ec). split; [discriminate | tauto].
  - assert (Hne : mLidarCoord st <> []) by congruence.
    rewrite (run_body_fusing _ _ _ Hne), Ec.
    match goal with
    | |- context [fold_outcome ?s ?l ?a] =>
        pose proof (vcs_fold_out_of_bounds (map camera (p :: coord)) l a)
          as Hoob;
        destruct (fold_outcome s l a) as [r | |] eqn:Ef
    end; rewrite length_map in Hoob; simpl bind.
    + split; [discriminate |]. intros (_ & Hbad).
      apply Hoob in Hbad. discriminate.
    + split; [| reflexivity].
      intros _. split; [discriminate | now apply Hoob].
    + now apply vcs_fold_never_raises in Ef.
Qed.

(** X6.  Whatever projection, association and conversion are, a pass that
    runs to its end computes one obstacle per associated index, in the order
    of the indices and once per occurrence: obstacle [k] is the conversion
    of the camera-frame point at index [bboxIdx[k]]; and it prints the
    number of stored points, then one line per obstacle. *)
Theorem run_body_one_obstacle_per_index (st : State F Image) (f : Fusion F) :
  tick st = Done (Fused f) ->
  length (vcsCoords f) = length (bboxIdx f) /\
  length (printed f) = S (length (bboxIdx f)) /\
  nth_error (printed f) 0 = Some (SizeLine (length (mLidarCoord st))) /\
  forall k b, nth_error (bboxIdx f) k = Some b ->
    exists o,
      picks (objectPoints f) b o /\
      nth_error (vcsCoords f) k = Some (getVCSCoordPointsFromLidar o) /\
      nth_error (printed f) (S k) =
        Some (VcsLine (getVCSCoordPointsFromLidar o)).
Proof.
  intros H.
  destruct (run_body_fused H) as (_ & _ & _ & _ & os & Hos & Hvcs & Hpr).
  pose proof (Forall2_length Hos) as Hlen.
  rewrite Hvcs, Hpr. simpl. rewrite !length_map.
  repeat split; auto.
  intros k b Hk.
  destruct (Forall2_nth_error_l Hos Hk) as (o & Hok & Hpick).
  exists o. rewrite !nth_error_map, Hok. auto.
Qed.

End LoopComposition.

(** ** The lines [solvePnP] prints *)

Lemma combine_firstn_length {A B : Type} (l1 : list A) :
  forall l2 : list B, combine (firstn (length l2) l1) l2 = combine l1 l2.
Proof.
  induction l1 as [| a l1 IH]; intros [| b l2]; simpl; auto.
  now rewrite IH.
Qed.

Section SolvePnPLines.

Context {F : Type} {ops : FloatOps F}.

Variable cv_solvePnP :
  list (Point3f F) -> list (Point2f F) -> list (list F) -> list F ->
  Outcome (Point3f F * Point3f F).
Variable cv_projectPoints :
  list (Point3f F) -> Point3f F -> Point3f F -> list (list F) -> list F ->
  Outcome (list (Point2f F)).
Variable K : list (list F).
Variable D : list F.

Lemma projected_loop_lines (ip pp : list (Point2f F)) (n : nat) :
  forall lo out,
    (0 <= lo)%Z ->
    Z.to_nat lo + n <= length ip -> Z.to_nat lo + n <= length pp ->
    for_loop n lo (projected_line_body ip pp) out =
    Done (out ++ map (fun ab => ProjectedLine (fst ab) (snd ab))
                   (combine (firstn n (skipn (Z.to_nat lo) ip))
                            (firstn n (skipn (Z.to_nat lo) pp)))).
Proof.
  induction n as [| n IH]; intros lo out Hlo Hip Hpp; simpl.
  - now rewrite app_nil_r.
  - destruct (nth_error ip (Z.to_nat lo)) as [a |] eqn:Ea.
    2: { apply nth_error_None in Ea. lia. }
    destruct (nth_error pp (Z.to_nat lo)) as [b |] eqn:Eb.
    2: { apply nth_error_None in Eb. lia. }
    unfold projected_line_body at 1.
    assert (Hia : index ip lo = Done a) by (apply index_done; auto).
    assert (Hib : index pp lo = Done b) by (apply index_done; auto).
    rewrite Hia, Hib. simpl.
    rewrite IH by lia.
    rewrite (skipn_nth_error Ea), (skipn_nth_error Eb). simpl.
    replace (Z.to_nat (lo + 1)) with (S (Z.to_nat lo)) by lia.
    now rewrite <- app_assoc.
Qed.

(** X7.  When both library calls return, the wrapper prints the two counts,
    the camera matrix, the distortion coefficients, the pose, and then one
    line per projected point that pairs it with the image point of the same
    index; it reads [imagePoints] out of bounds exactly when the projection
    has more points than there are image points. *)
Theorem solvePnP_prints (ip : list (Point2f F)) (op : list (Point3f F))
    (pose : Point3f F * Point3f F) (pp : list (Point2f F)) :
  cv_solvePnP op ip K D = Done pose ->
  cv_projectPoints op (fst pose) (snd pose) K D = Done pp ->
  (length pp <= length ip ->
   solvePnP cv_solvePnP cv_projectPoints K D ip op =
   Done (pnp_lines K D ip op pose pp)) /\
  (solvePnP cv_solvePnP cv_projectPoints K D ip op = OutOfBounds <->
   length ip < length pp).
Proof.
  intros Hs Hp.
  assert (Hdone : length pp <= length ip ->
    solvePnP cv_solvePnP cv_projectPoints K D ip op =
    Done (pnp_lines K D ip op pose pp)).
  { intros Hlen. unfold solvePnP, for_range. rewrite Hs. simpl. rewrite Hp.
    simpl. rewrite projected_loop_lines by (simpl; lia).
    replace (Z.to_nat (Z.of_nat (length pp) - 0)) with (length pp) by lia.
    simpl. now rewrite firstn_all, combine_firstn_length. }
  split; [exact Hdone |].
  destruct (Nat.lt_ge_cases (length ip) (length pp)) as [Hlt | Hge].
  - split; [auto |]. intros _.
    unfold solvePnP, for_range. rewrite Hs. simpl. rewrite Hp. simpl.
    apply projected_loop_out_of_bounds; simpl; lia.
  - rewrite (Hdone Hge). split; [discriminate | lia].
Qed.

End SolvePnPLines.

(** ** The detector: short rows and class names *)

Section DetectorEdges.

Context {F : Type} {ops : FloatOps F}.

Variable mConfThreshold : F.
Variable imgCols imgRows : Z.

#[local] Abbreviation ext := (extend imgCols imgRows).
#[local] Abbreviation ok := (accepts mConfThreshold).
#[local] Abbreviation decode := (candidates mConfThreshold imgCols imgRows).

Lemma long_enough_all (rows : list (list F)) :
  forallb long_enough rows = false <->
  exists row, In row rows /\ length row < 5.
Proof.
  induction rows as [| row rows IH]; simpl.
  - split; [discriminate | intros (r & [] & _)].
  - rewrite andb_false_iff, IH. unfold long_enough.
    destruct (Nat.leb_spec 5 (length row)); split.
    + intros [H' | (r & Hin & Hr)]; [discriminate | eauto].
    + intros (r & [<- | Hin] & Hr); [lia | eauto].
    + intros _. eauto.
    + auto.
Qed.

(** X8.  Decoding raises exactly when some row of some blob has fewer than
    five columns, and never reads out of bounds; when it returns, the three
    vectors it hands to suppression have the same length, at most the
    number of rows, and every confidence in them exceeds the threshold. *)
Theorem candidates_raises_iff (outs : list (list (list F))) :
  (candidates mConfThreshold imgCols imgRows outs = CvException <->
   exists row, In row (concat outs) /\ length row < 5) /\
  candidates mConfThreshold imgCols imgRows outs <> OutOfBounds /\
  (forall cand, candidates mConfThreshold imgCols imgRows outs = Done cand ->
     length (classIds cand) = length (boxes cand) /\
     length (confidences cand) = length (boxes cand) /\
     length (boxes cand) <= length (concat outs) /\
     Forall (fun c => fgtb c mConfThreshold = true) (confidences cand)).
Proof.
  unfold candidates. rewrite outs_loop_spec, <- long_enough_all.
  destruct (forallb long_enough (concat outs)).
  - split; [split; discriminate |]. split; [discriminate |].
    intros cand [= <-]. simpl. rewrite !length_map.
    split; [reflexivity |]. split; [reflexivity |].
    split; [apply filter_length_le |].
    apply Forall_forall. intros c Hc. apply in_map_iff in Hc.
    destruct Hc as (row & <- & Hrow). apply filter_In in Hrow.
    destruct Hrow as [_ Hrow]. unfold accepts in Hrow.
    now apply andb_prop in Hrow.
  - split; [split; reflexivity |]. split; discriminate.
Qed.

Variable NMSBoxes : list Rect -> list F -> F -> F -> list Z.
Variable mNmsThreshold : F.
Variable mClassNames : list string.

Lemma draw_fold_done (cand : Candidates F) (l : list Z) (name : string) :
  length (classIds cand) = length (boxes cand) ->
  length (confidences cand) = length (boxes cand) ->
  Forall (fun c => c = 4%Z) (classIds cand) ->
  index mClassNames 4 = Done name ->
  Forall (fun i => (0 <= i < Z.of_nat (length (boxes cand)))%Z) l ->
  forall acc,
    exists ds,
      fold_outcome (draw_step mClassNames cand) l acc = Done (acc ++ ds) /\
      length ds = length l /\
      Forall (fun d => drawnClass d = 4%Z /\ drawnName d = name) ds.
Proof.
  intros Hc Hf Hall Hn. induction 1 as [| i l Hi _ IH]; intros acc.
  - exists []. simpl. now rewrite app_nil_r.
  - destruct (nth_error (confidences cand) (Z.to_nat i)) as [conf |] eqn:Ecf.
    2: { apply nth_error_None in Ecf. lia. }
    destruct (nth_error (classIds cand) (Z.to_nat i)) as [cls |] eqn:Ecl.
    2: { apply nth_error_None in Ecl. lia. }
    assert (cls = 4%Z).
    { eapply Forall_forall in Hall; [exact Hall |].
      eapply nth_error_In; eauto. }
    subst cls.
    assert (H0 : index (boxes cand) i =
                 Done (nth (Z.to_nat i) (boxes cand) (mkRect 0 0 0 0)))
      by (apply index_nth_default; lia).
    assert (H1 : index (confidences cand) i = Done conf)
      by (apply index_done; split; [lia | auto]).
    assert (H2 : index (classIds cand) i = Done 4%Z)
      by (apply index_done; split; [lia | auto]).
    destruct (IH (acc ++ [mkDrawn (nth (Z.to_nat i) (boxes cand) (mkRect 0 0 0 0))
                            4%Z name conf]))
      as (ds & Hfold & Hlen & Hds).
    exists (mkDrawn (nth (Z.to_nat i) (boxes cand) (mkRect 0 0 0 0))
              4%Z name conf :: ds).
    split; [| split].
    + change (fold_outcome (draw_step mClassNames cand) (i :: l) acc)
        with (s' <- draw_step mClassNames cand i acc ;;
              fold_outcome (draw_step mClassNames cand) l s').
      unfold draw_step at 1. rewrite H0. unfold bind at 2.
      rewrite H1. unfold bind at 2. rewrite H2. unfold bind at 2.
      rewrite Hn. unfold bind at 2. unfold bind at 1.
      rewrite Hfold. now rewrite <- app_assoc.
    + simpl. now rewrite Hlen.
    + constructor; [split; reflexivity | exact Hds].
Qed.

(** X9.  Every label drawn reads [mClassNames[4]].  When suppression returns
    indices of candidates and there are at least five class names, one
    rectangle is drawn per index, each of class 4 and labelled with the
    fifth name; with fewer than five names the first rectangle to draw is
    an out-of-bounds read. *)
Theorem boundingBox_reads_fifth_name (outs : list (list (list F)))
    (cand : Candidates F) :
  decode outs = Done cand ->
  Forall (fun i => (0 <= i < Z.of_nat (length (boxes cand)))%Z)
    (NMSBoxes (boxes cand) (confidences cand) mConfThreshold mNmsThreshold) ->
  (5 <= length mClassNames ->
   exists drawn,
     boundingBox_drawn mConfThreshold imgCols imgRows NMSBoxes mNmsThreshold
       mClassNames outs = Done drawn /\
     length drawn =
       length (NMSBoxes (boxes cand) (confidences cand) mConfThreshold
                 mNmsThreshold) /\
     Forall (fun d => drawnClass d = 4%Z /\
                      nth_error mClassNames 4 = Some (drawnName d)) drawn) /\
  (length mClassNames < 5 ->
   NMSBoxes (boxes cand) (confidences cand) mConfThreshold mNmsThreshold <> [] ->
   boundingBox_drawn mConfThreshold imgCols imgRows NMSBoxes mNmsThreshold
     mClassNames outs = OutOfBounds).
Proof.
  intros Hdec Hidx.
  assert (Hshape :
    length (classIds cand) = length (boxes cand) /\
    length (confidences cand) = length (boxes cand) /\
    Forall (fun c => c = 4%Z) (classIds cand)).
  { revert Hdec. unfold candidates. rewrite outs_loop_spec.
    destruct (forallb long_enough (concat outs)); [| discriminate].
    intros [= <-]. simpl. rewrite !length_map. repeat split.
    apply Forall_forall. intros c Hc. apply in_map_iff in Hc.
    now destruct Hc as (_ & <- & _). }
  destruct Hshape as (Hc & Hf & Hall).
  unfold boundingBox_drawn. rewrite Hdec. cbn [bind].
  set (indices := NMSBoxes _ _ _ _) in *.
  rewrite !(for_range_fold (step := draw_step mClassNames cand))
    by reflexivity.
  split.
  - intros Hn.
    destruct (nth_error mClassNames 4) as [name |] eqn:En.
    2: { apply nth_error_None in En. lia. }
    assert (Hname : index mClassNames 4 = Done name)
      by (apply index_done; split; [lia | exact En]).
    destruct (draw_fold_done (l := indices) Hc Hf Hall Hname Hidx []) as
      (ds & Hfold & Hlen & Hds).
    exists ds. split; [exact Hfold |]. split; [exact Hlen |].
    eapply Forall_impl; [| exact Hds].
    intros d [Hcls Hnm]. split; [exact Hcls | now rewrite Hnm].
  - intros Hn Hne. destruct indices as [| i l]; [congruence |].
    inversion Hidx as [| ? ? Hi _]; subst. simpl.
    unfold draw_step at 1.
    rewrite (index_nth_default (v := boxes cand) (i := i) (mkRect 0 0 0 0))
      by lia.
    destruct (nth_error (confidences cand) (Z.to_nat i)) as [conf |] eqn:Ecf.
    2: { apply nth_error_None in Ecf. lia. }
    destruct (nth_error (classIds cand) (Z.to_nat i)) as [cls |] eqn:Ecl.
    2: { apply nth_error_None in Ecl. lia. }
    assert (cls = 4%Z).
    { eapply Forall_forall in Hall; [exact Hall |].
      eapply nth_error_In; eauto. }
    subst cls.
    assert (H1 : index (confidences cand) i = Done conf)
      by (apply index_done; split; [lia | auto]).
    assert (H2 : index (classIds cand) i = Done 4%Z)
      by (apply index_done; split; [lia | auto]).
    assert (H3 : index mClassNames 4 = OutOfBounds)
      by (apply index_out_of_bounds; right; lia).
    rewrite H1, H2. simpl. now rewrite H3.
Qed.

End DetectorEdges.

(** ** Speed control *)

Section SpeedControlFacts.

Context {F : Type} {ops : FloatOps F} {Image : Type}.

Variable fsub : F -> F -> F.
Variable fabs : F -> F.

#[local] Abbreviation control := (speedControl (Image := Image) fsub fabs).

(** X10.  With an order without NaN and steps that are not negative, speed
    control keeps the speed between the minimum and the maximum speed once
    it is there, and touches neither the stored points nor the frame. *)
Theorem speedControl_keeps_range (cfg : SpeedConfig F) (st : State F Image)
    (steeringAngle : F) :
  OrderLaws fsub ->
  not_above (mXycarMinSpeed cfg) (mXycarMaxSpeed cfg) ->
  not_above (of_int 0) (mAccelerationStep cfg) ->
  not_above (of_int 0) (mDecelerationStep cfg) ->
  not_above (mXycarMinSpeed cfg) (mXycarSpeed st) ->
  not_above (mXycarSpeed st) (mXycarMaxSpeed cfg) ->
  not_above (mXycarMinSpeed cfg) (mXycarSpeed (control cfg st steeringAngle)) /\
  not_above (mXycarSpeed (control cfg st steeringAngle)) (mXycarMaxSpeed cfg) /\
  mLidarCoord (control cfg st steeringAngle) = mLidarCoord st /\
  mFrame (control cfg st steeringAngle) = mFrame st.
Proof.
  intros [Hirr Htr Hsub Hadd] Hmm Ha Hd Hlo Hhi.
  unfold speedControl, std_max, std_min.
  destruct (fgtb (fabs steeringAngle) (mXycarSpeedControlThreshold cfg)); simpl.
  - destruct (fgtb (mXycarMinSpeed cfg)
                (fsub (mXycarSpeed st) (mDecelerationStep cfg))) eqn:E.
    + repeat split; auto.
    + repeat split; auto. eapply Htr; [apply Hsub; exact Hd | exact Hhi].
  - destruct (fgtb (fadd (mXycarSpeed st) (mAccelerationStep cfg))
                (mXycarMaxSpeed cfg)) eqn:E.
    + repeat split; auto.
    + repeat split; auto. eapply Htr; [exact Hlo | apply Hadd; exact Ha].
Qed.

(** X11.  Under the same laws, a steering angle whose magnitude exceeds the
    threshold never raises a speed that is at least the minimum speed, a
    steering angle within the threshold never lowers a speed that is at most
    the maximum speed; and whatever the speed was, the first leaves it at
    least the minimum and the second at most the maximum. *)
Theorem speedControl_direction (cfg : SpeedConfig F) (st : State F Image)
    (steeringAngle : F) :
  OrderLaws fsub ->
  not_above (of_int 0) (mAccelerationStep cfg) ->
  not_above (of_int 0) (mDecelerationStep cfg) ->
  (fgtb (fabs steeringAngle) (mXycarSpeedControlThreshold cfg) = true ->
   not_above (mXycarMinSpeed cfg) (mXycarSpeed (control cfg st steeringAngle)) /\
   (not_above (mXycarMinSpeed cfg) (mXycarSpeed st) ->
    not_above (mXycarSpeed (control cfg st steeringAngle)) (mXycarSpeed st))) /\
  (fgtb (fabs steeringAngle) (mXycarSpeedControlThreshold cfg) = false ->
   not_above (mXycarSpeed (control cfg st steeringAngle)) (mXycarMaxSpeed cfg) /\
   (not_above (mXycarSpeed st) (mXycarMaxSpeed cfg) ->
    not_above (mXycarSpeed st) (mXycarSpeed (control cfg st steeringAngle)))).
Proof.
  intros [Hirr Htr Hsub Hadd] Ha Hd.
  unfold speedControl, std_max, std_min. split; intros ->; simpl.
  - destruct (fgtb (mXycarMinSpeed cfg)
                (fsub (mXycarSpeed st) (mDecelerationStep cfg))) eqn:E;
      split; auto.
  - destruct (fgtb (fadd (mXycarSpeed st) (mAccelerationStep cfg))
                (mXycarMaxSpeed cfg)) eqn:E;
      split; auto.
Qed.

End SpeedControlFacts.

(** The laws hold of exact rationals. *)
Lemma QFloat_not_above (a b : Q) : not_above a b <-> (a <= b)%Q.
Proof.
  unfold not_above. simpl. unfold QFloat.gtb, Qle.
  rewrite Z.ltb_ge. reflexivity.
Qed.

Lemma QFloat_order_laws : OrderLaws (F := Q) Qsub_red.
Proof.
  constructor.
  - intros a. apply QFloat_not_above. apply Qle_refl.
  - intros a b c. rewrite !QFloat_not_above. apply Qle_trans.
  - intros x d. rewrite !QFloat_not_above. unfold Qsub_red. intros H.
    change (0 <= d)%Q in H. rewrite Qred_correct. lra.
  - intros x a. rewrite !QFloat_not_above. intros H.
    change (0 <= a)%Q in H. change (x <= Qred (x + a))%Q.
    rewrite Qred_correct. lra.
Qed.

(** ** The camera matrix read from the configuration *)

Ltac nat_cases :=
  repeat match goal with
         | |- context [Nat.eqb ?x ?y] => destruct (Nat.eqb_spec x y)
         | |- context [Nat.leb ?x ?y] => destruct (Nat.leb_spec x y)
         | |- context [Nat.ltb ?x ?y] => destruct (Nat.ltb_spec x y)
         end;
  cbn [andb]; subst; try lia; try congruence; auto.

Lemma set_nth_length {A : Type} (l : list A) :
  forall n a, length (set_nth l n a) = length l.
Proof.
  induction l as [| x l IH]; intros [| n] a; simpl; auto.
Qed.

Lemma set_nth_same {A : Type} (l : list A) :
  forall n a, n < length l -> nth_error (set_nth l n a) n = Some a.
Proof.
  induction l as [| x l IH]; intros [| n] a H; simpl in *; try lia; auto.
  apply IH. lia.
Qed.

Lemma set_nth_other {A : Type} (l : list A) :
  forall n k a, k <> n -> nth_error (set_nth l n a) k = nth_error l k.
Proof.
  induction l as [| x l IH]; intros [| n] [| k] a H; simpl; auto;
    congruence.
Qed.

Lemma set_nth_Forall {A : Type} (P : A -> Prop) (l : list A) :
  forall n a, Forall P l -> P a -> Forall P (set_nth l n a).
Proof.
  induction l as [| x l IH]; intros [| n] a Hl Ha; simpl; auto;
    inversion Hl; subst; constructor; auto.
Qed.

Section CameraMatrixFacts.

Context {F : Type}.

Variable matrixData : list (list F).

Lemma mat_set_spec (m : Mat F) (i j : Z) (v : F) :
  mat_wf m ->
  (0 <= i)%Z -> Z.to_nat i < Z.to_nat (mat_rows m) ->
  (0 <= j)%Z -> Z.to_nat j < Z.to_nat (mat_cols m) ->
  exists m',
    mat_set m i j v = Done m' /\ mat_wf m' /\
    mat_rows m' = mat_rows m /\ mat_cols m' = mat_cols m /\
    forall a b,
      mat_get m' a b =
      if (a =? Z.to_nat i) && (b =? Z.to_nat j) then Some v else mat_get m a b.
Proof.
  intros (Hr & Hc & Hlen & Hrows) Hi Hi' Hj Hj'.
  destruct (nth_error (mat_elems m) (Z.to_nat i)) as [row |] eqn:Erow.
  2: { apply nth_error_None in Erow. lia. }
  assert (Hrow : length row = Z.to_nat (mat_cols m)).
  { eapply Forall_forall in Hrows; [exact Hrows |].
    eapply nth_error_In; eauto. }
  assert (H1 : index (mat_elems m) i = Done row) by (apply index_done; auto).
  assert (H2 : index row j = Done (nth (Z.to_nat j) row v))
    by (apply index_nth_default; lia).
  unfold mat_set. rewrite H1. simpl. rewrite H2. simpl.
  eexists. split; [reflexivity |]. split; [| split; [| split]]; simpl; auto.
  - unfold mat_wf. simpl. rewrite set_nth_length.
    repeat split; auto.
    apply set_nth_Forall; auto. now rewrite set_nth_length.
  - intros a b. unfold mat_get. simpl.
    destruct (Nat.eqb_spec a (Z.to_nat i)) as [-> | Ha]; cbn [andb].
    + rewrite set_nth_same by lia.
      destruct (Nat.eqb_spec b (Z.to_nat j)) as [-> | Hb].
      * apply set_nth_same. lia.
      * rewrite set_nth_other by auto. now rewrite Erow.
    + now rewrite set_nth_other by auto.
Qed.

Lemma fill_inner_step (m : Mat F) (i j : Z) (v : F) :
  (0 <= i)%Z -> (0 <= j)%Z ->
  entry matrixData (Z.to_nat i) (Z.to_nat j) = Some v ->
  fill_inner matrixData i j m = mat_set m i j v.
Proof.
  intros Hi Hj He. unfold entry in He.
  destruct (nth_error matrixData (Z.to_nat i)) as [dataRow |] eqn:Ed;
    [| discriminate].
  assert (H1 : index matrixData i = Done dataRow) by (apply index_done; auto).
  assert (H2 : index dataRow j = Done v) by (apply index_done; auto).
  unfold fill_inner. rewrite H1. simpl. now rewrite H2.
Qed.

Lemma fill_inner_missing (m : Mat F) (i j : Z) :
  (0 <= i)%Z -> (0 <= j)%Z ->
  entry matrixData (Z.to_nat i) (Z.to_nat j) = None ->
  fill_inner matrixData i j m = OutOfBounds.
Proof.
  intros Hi Hj He. unfold entry in He. unfold fill_inner.
  destruct (nth_error matrixData (Z.to_nat i)) as [dataRow |] eqn:Ed.
  - assert (H1 : index matrixData i = Done dataRow) by (apply index_done; auto).
    rewrite H1. simpl.
    assert (H2 : index dataRow j = OutOfBounds).
    { apply index_out_of_bounds. apply nth_error_None in He. lia. }
    now rewrite H2.
  - assert (H1 : index matrixData i = OutOfBounds).
    { apply index_out_of_bounds. apply nth_error_None in Ed. lia. }
    now rewrite H1.
Qed.

Lemma inner_loop_done (i : Z) (n : nat) :
  forall lo m,
    mat_wf m -> (0 <= i)%Z -> Z.to_nat i < Z.to_nat (mat_rows m) ->
    (0 <= lo)%Z -> Z.to_nat lo + n <= Z.to_nat (mat_cols m) ->
    (forall j, Z.to_nat lo <= j < Z.to_nat lo + n ->
       entry matrixData (Z.to_nat i) j <> None) ->
    exists m',
      for_loop n lo (fill_inner matrixData i) m = Done m' /\ mat_wf m' /\
      mat_rows m' = mat_rows m /\ mat_cols m' = mat_cols m /\
      forall a b,
        mat_get m' a b =
        if (a =? Z.to_nat i) && (Z.to_nat lo <=? b) && (b <? Z.to_nat lo + n)
        then entry matrixData a b else mat_get m a b.
Proof.
  induction n as [| n IH]; intros lo m Hwf Hi Hi' Hlo Hn Hcov.
  - exists m. simpl. repeat split; auto; try apply Hwf.
    intros a b. nat_cases.
  - destruct (entry matrixData (Z.to_nat i) (Z.to_nat lo)) as [v |] eqn:Ev.
    2: { exfalso. apply (Hcov (Z.to_nat lo)); [lia | exact Ev]. }
    destruct (mat_set_spec (m := m) (i := i) (j := lo) v)
      as (m1 & Hset & Hwf1 & Hr1 & Hc1 & Hget1); auto; try lia.
    destruct (IH (lo + 1)%Z m1) as (m' & Hloop & Hwf' & Hr' & Hc' & Hget');
      auto; try lia.
    { intros j Hj. apply Hcov. lia. }
    exists m'. simpl. rewrite (fill_inner_step _ Hi Hlo Ev), Hset. simpl.
    split; [exact Hloop |]. split; [exact Hwf' |].
    split; [congruence |]. split; [congruence |].
    intros a b. rewrite Hget', Hget1.
    replace (Z.to_nat (lo + 1)) with (S (Z.to_nat lo)) by lia.
    nat_cases.
Qed.

Lemma inner_loop_out_of_bounds (i : Z) (n : nat) :
  forall lo m,
    mat_wf m -> (0 <= i)%Z -> Z.to_nat i < Z.to_nat (mat_rows m) ->
    (0 <= lo)%Z -> Z.to_nat lo + n <= Z.to_nat (mat_cols m) ->
    (exists j, Z.to_nat lo <= j < Z.to_nat lo + n /\
               entry matrixData (Z.to_nat i) j = None) ->
    for_loop n lo (fill_inner matrixData i) m = OutOfBounds.
Proof.
  induction n as [| n IH]; intros lo m Hwf Hi Hi' Hlo Hn (j & Hj & Hbad);
    [lia |].
  simpl.
  destruct (entry matrixData (Z.to_nat i) (Z.to_nat lo)) as [v |] eqn:Ev.
  - destruct (mat_set_spec (m := m) (i := i) (j := lo) v)
      as (m1 & Hset & Hwf1 & Hr1 & Hc1 & _); auto; try lia.
    rewrite (fill_inner_step _ Hi Hlo Ev), Hset. simpl.
    apply IH; auto; try lia.
    exists j. split; [| exact Hbad].
    assert (j <> Z.to_nat lo) by congruence. lia.
  - now rewrite (fill_inner_missing _ Hi Hlo Ev).
Qed.

Lemma row_covered_dec (i c : nat) :
  (forall j, j < c -> entry matrixData i j <> None) \/
  (exists j, j < c /\ entry matrixData i j = None).
Proof.
  induction c as [| c [IH | (j & Hj & Hbad)]].
  - left. intros j Hj. lia.
  - destruct (entry matrixData i c) eqn:E.
    + left. intros j Hj. destruct (Nat.eq_dec j c) as [-> | Hne].
      * congruence.
      * apply IH. lia.
    + right. exists c. auto.
  - right. exists j. split; [lia | exact Hbad].
Qed.

Lemma outer_loop_done (n : nat) :
  forall lo m,
    mat_wf m -> (0 <= lo)%Z -> Z.to_nat lo + n <= Z.to_nat (mat_rows m) ->
    (forall i j, Z.to_nat lo <= i < Z.to_nat lo + n ->
       j < Z.to_nat (mat_cols m) -> entry matrixData i j <> None) ->
    exists m',
      for_loop n lo (fill_outer matrixData) m = Done m' /\ mat_wf m' /\
      mat_rows m' = mat_rows m /\ mat_cols m' = mat_cols m /\
      forall a b, b < Z.to_nat (mat_cols m) ->
        mat_get m' a b =
        if (Z.to_nat lo <=? a) && (a <? Z.to_nat lo + n)
        then entry matrixData a b else mat_get m a b.
Proof.
  induction n as [| n IH]; intros lo m Hwf Hlo Hn Hcov.
  - exists m. simpl. repeat split; auto; try apply Hwf.
    intros a b _. nat_cases.
  - destruct (inner_loop_done (i := lo)
                (n := Z.to_nat (mat_cols m - 0)) (lo := 0) (m := m))
      as (m1 & Hin & Hwf1 & Hr1 & Hc1 & Hget1); auto; try lia.
    { intros j Hj. apply Hcov; lia. }
    destruct (IH (lo + 1)%Z m1) as (m' & Hloop & Hwf' & Hr' & Hc' & Hget');
      auto; try lia.
    { intros i j Hi Hj. apply Hcov; [lia | congruence]. }
    exists m'. simpl. unfold fill_outer at 1, for_range. rewrite Hin. simpl.
    split; [exact Hloop |]. split; [exact Hwf' |].
    split; [congruence |]. split; [congruence |].
    intros a b Hb. rewrite Hget' by congruence. rewrite Hget1.
    replace (Z.to_nat (lo + 1)) with (S (Z.to_nat lo)) by lia.
    replace (Z.to_nat 0 + Z.to_nat (mat_cols m - 0))
      with (Z.to_nat (mat_cols m)) by lia.
    change (Z.to_nat 0) with 0.
    nat_cases.
Qed.

Lemma outer_loop_out_of_bounds (n : nat) :
  forall lo m,
    mat_wf m -> (0 <= lo)%Z -> Z.to_nat lo + n <= Z.to_nat (mat_rows m) ->
    (exists i j, Z.to_nat lo <= i < Z.to_nat lo + n /\
                 j < Z.to_nat (mat_cols m) /\ entry matrixData i j = None) ->
    for_loop n lo (fill_outer matrixData) m = OutOfBounds.
Proof.
  induction n as [| n IH]; intros lo m Hwf Hlo Hn (i & j & Hi & Hj & Hbad);
    [lia |].
  simpl. unfold fill_outer at 1, for_range.
  destruct (row_covered_dec (Z.to_nat lo) (Z.to_nat (mat_cols m)))
    as [Hrow | (j' & Hj' & Hbad')].
  - destruct (inner_loop_done (i := lo)
                (n := Z.to_nat (mat_cols m - 0)) (lo := 0) (m := m))
      as (m1 & Hin & Hwf1 & Hr1 & Hc1 & _); auto; try lia.
    { intros k Hk. apply Hrow. lia. }
    rewrite Hin. simpl. apply IH; auto; try lia.
    exists i, j. split; [| split; [congruence | exact Hbad]].
    assert (i <> Z.to_nat lo) by (intros ->; now apply (Hrow j)). lia.
  - rewrite (inner_loop_out_of_bounds (i := lo)); auto; try lia.
    exists j'. split; [lia | exact Hbad'].
Qed.

Lemma covers_dec (m : Mat F) (r : nat) :
  (forall i j, i < r -> j < Z.to_nat (mat_cols m) ->
     entry matrixData i j <> None) \/
  (exists i j, i < r /\ j < Z.to_nat (mat_cols m) /\
               entry matrixData i j = None).
Proof.
  induction r as [| r [IH | (i & j & Hi & Hj & Hbad)]].
  - left. intros i j Hi. lia.
  - destruct (row_covered_dec r (Z.to_nat (mat_cols m)))
      as [Hrow | (j & Hj & Hbad)].
    + left. intros i j Hi Hj. destruct (Nat.eq_dec i r) as [-> | Hne].
      * now apply Hrow.
      * apply IH; [lia | exact Hj].
    + right. exists r, j. auto.
  - right. exists i, j. split; [lia | auto].
Qed.

(** X12.  The loops that fill the camera matrix copy the top left block of
    the configuration's matrix: when the configuration has an entry for
    every element, every element of the result is the configuration's entry
    at the same place and the dimensions are kept, further rows and columns
    of the configuration being ignored; the loops read out of bounds exactly
    when the configuration lacks an entry for some element. *)
Theorem fill_camera_matrix_copies (m : Mat F) :
  mat_wf m ->
  (covers m matrixData ->
   exists m',
     fill_camera_matrix m matrixData = Done m' /\
     mat_rows m' = mat_rows m /\ mat_cols m' = mat_cols m /\
     forall i j, i < Z.to_nat (mat_rows m) -> j < Z.to_nat (mat_cols m) ->
       mat_get m' i j = entry matrixData i j) /\
  (fill_camera_matrix m matrixData = OutOfBounds <->
   exists i j, i < Z.to_nat (mat_rows m) /\ j < Z.to_nat (mat_cols m) /\
               entry matrixData i j = None).
Proof.
  intros Hwf.
  assert (Hdone : covers m matrixData ->
   exists m',
     fill_camera_matrix m matrixData = Done m' /\
     mat_rows m' = mat_rows m /\ mat_cols m' = mat_cols m /\
     forall i j, i < Z.to_nat (mat_rows m) -> j < Z.to_nat (mat_cols m) ->
       mat_get m' i j = entry matrixData i j).
  { intros Hcov.
    destruct (outer_loop_done (n := Z.to_nat (mat_rows m - 0)) (lo := 0) (m := m))
      as (m' & Hloop & _ & Hr & Hc & Hget); auto; try lia.
    { intros i j Hi Hj. apply Hcov; [lia | exact Hj]. }
    exists m'. split; [exact Hloop |]. split; [exact Hr |].
    split; [exact Hc |]. intros i j Hi Hj. rewrite (Hget _ _ Hj).
    change (Z.to_nat 0) with 0. nat_cases. }
  split; [exact Hdone |]. split.
  - intros Hoob.
    destruct (covers_dec m (Z.to_nat (mat_rows m))) as [Hcov | Hbad]; auto.
    destruct (Hdone Hcov) as (m' & Hm' & _). congruence.
  - intros (i & j & Hi & Hj & Hbad).
    unfold fill_camera_matrix, for_range.
    apply outer_loop_out_of_bounds; auto; try lia.
    exists i, j. repeat split; auto; lia.
Qed.

End CameraMatrixFacts.

(** ** The further properties on examples *)

Example spinOnce_queue_mixed :
  spinOnce mat_unit cvt_unit state0 queue_mixed = Done state_axis.
Proof. vm_compute. reflexivity. Qed.

Example imageCallback_empty_buffer :
  imageCallback mat_unit cvt_unit state0 image_empty = OutOfBounds.
Proof. vm_compute. reflexivity. Qed.

Example imageCallback_ill_stepped :
  imageCallback mat_unit cvt_unit state0 image_ill_stepped = CvException.
Proof. vm_compute. reflexivity. Qed.

Example callbacks_first_failure_wins :
  spinOnce mat_unit cvt_unit state0
    [ImageMsg image_ill_stepped; ScanMsg scan504] = CvException /\
  spinOnce mat_unit cvt_unit state0
    [ScanMsg scan504; ImageMsg image_ill_stepped] = OutOfBounds.
Proof. split; vm_compute; reflexivity. Qed.

Lemma spinOnce_last_message_wins_witness :
  mXycarSpeed state_axis = mXycarSpeed state0 /\
  match last_image queue_mixed with
  | Some message => frame_of mat_unit cvt_unit message = Done (mFrame state_axis)
  | None => mFrame state_axis = mFrame state0
  end /\
  match last_scan queue_mixed with
  | Some scan => rasterize_ref scan = Some (mLidarCoord state_axis)
  | None => mLidarCoord state_axis = mLidarCoord state0
  end.
Proof.
  apply (@spinOnce_last_message_wins Q QFloat.ops unit mat_unit cvt_unit
           queue_mixed state0 state_axis).
  vm_compute. reflexivity.
Defined.

Lemma run_loop_short_scan_witness :
  run_loop mat_unit cvt_unit (SpecModel.getProjectPoints facingT pinholeK)
    (SpecModel.boundingBox one_box) vcs_identity (initial tt 0%Q)
    queues_short_scan = OutOfBounds.
Proof.
  apply (@run_loop_short_scan Q QFloat.ops unit mat_unit cvt_unit
           (SpecModel.getProjectPoints facingT pinholeK)
           (SpecModel.boundingBox one_box) vcs_identity queues_short_scan
           (initial tt 0%Q)).
  - vm_compute. reflexivity.
  - intros message [H | [H | [H | []]]]; try discriminate H.
    injection H as <-. vm_compute. discriminate.
Defined.

Example run_body_bad_index :
  run_body (SpecModel.getProjectPoints facingT pinholeK) bad_index
    vcs_identity state_axis = OutOfBounds.
Proof. vm_compute. reflexivity. Qed.

Lemma run_body_one_obstacle_per_index_witness :
  length (vcsCoords fusion_twice) = length (bboxIdx fusion_twice) /\
  length (printed fusion_twice) = S (length (bboxIdx fusion_twice)) /\
  nth_error (printed fusion_twice) 0 =
    Some (SizeLine (length (mLidarCoord state_axis))) /\
  forall k b, nth_error (bboxIdx fusion_twice) k = Some b ->
    exists o,
      picks (objectPoints fusion_twice) b o /\
      nth_error (vcsCoords fusion_twice) k = Some (vcs_identity o) /\
      nth_error (printed fusion_twice) (S k) = Some (VcsLine (vcs_identity o)).
Proof.
  apply (@run_body_one_obstacle_per_index Q QFloat.ops unit
           (SpecModel.getProjectPoints facingT pinholeK) twice_first
           vcs_identity state_axis fusion_twice).
  vm_compute. reflexivity.
Defined.

Lemma solvePnP_prints_witness :
  solvePnP (CvModel.solvePnP pose0)
    (CvModel.projectPoints (SpecModel.project_point identityT pinholeK))
    matrixK [] Generate2DPoints Generate3DVCSPoints =
  Done (pnp_lines matrixK [] Generate2DPoints Generate3DVCSPoints pose0
          (map (SpecModel.project_point identityT pinholeK)
               Generate3DVCSPoints)) /\
  solvePnP (CvModel.solvePnP pose0) project_one_more
    matrixK [] Generate2DPoints Generate3DVCSPoints = OutOfBounds.
Proof.
  split.
  - apply (@solvePnP_prints Q (CvModel.solvePnP pose0)
             (CvModel.projectPoints (SpecModel.project_point identityT pinholeK))
             matrixK [] Generate2DPoints Generate3DVCSPoints pose0
             (map (SpecModel.project_point identityT pinholeK)
                  Generate3DVCSPoints));
      [reflexivity | reflexivity | vm_compute; lia].
  - apply (@solvePnP_prints Q (CvModel.solvePnP pose0)
             project_one_more
             matrixK [] Generate2DPoints Generate3DVCSPoints pose0
             (mkPoint2f 0%Q 0%Q ::
              map (SpecModel.project_point identityT pinholeK)
                  Generate3DVCSPoints));
      [reflexivity | reflexivity | vm_compute; lia].
Defined.

Example candidates_outs_short :
  candidates (1 # 2)%Q 640 480 outs_short = CvException.
Proof. vm_compute. reflexivity. Qed.

Lemma boundingBox_reads_fifth_name_witness :
  (exists drawn,
     boundingBox_drawn (1 # 2)%Q 640 480 keep_all (2 # 5)%Q six_names outs3 =
       Done drawn /\
     length drawn = 1 /\
     Forall (fun d => drawnClass d = 4%Z /\
                      nth_error six_names 4 = Some (drawnName d)) drawn) /\
  boundingBox_drawn (1 # 2)%Q 640 480 keep_all (2 # 5)%Q two_names outs3 =
    OutOfBounds.
Proof.
  split.
  - apply (@boundingBox_reads_fifth_name Q QFloat.ops (1 # 2)%Q 640 480
             keep_all (2 # 5)%Q six_names outs3
             (mkCandidates [4%Z] [0.9%Q] [mkRect 256 144 128 192])).
    + vm_compute. reflexivity.
    + unfold keep_all. simpl. constructor; [lia | constructor].
    + simpl. lia.
  - apply (@boundingBox_reads_fifth_name Q QFloat.ops (1 # 2)%Q 640 480
             keep_all (2 # 5)%Q two_names outs3
             (mkCandidates [4%Z] [0.9%Q] [mkRect 256 144 128 192])).
    + vm_compute. reflexivity.
    + unfold keep_all. simpl. constructor; [lia | constructor].
    + simpl. lia.
    + discriminate.
Defined.

Lemma speedControl_keeps_range_witness :
  not_above (mXycarMinSpeed speed_config)
    (mXycarSpeed (speedControl Qsub_red Qabs_red speed_config state_speed5 30%Q)) /\
  not_above
    (mXycarSpeed (speedControl Qsub_red Qabs_red speed_config state_speed5 30%Q))
    (mXycarMaxSpeed speed_config) /\
  mLidarCoord (speedControl Qsub_red Qabs_red speed_config state_speed5 30%Q) =
    mLidarCoord state_speed5 /\
  mFrame (speedControl Qsub_red Qabs_red speed_config state_speed5 30%Q) =
    mFrame state_speed5.
Proof.
  apply (@speedControl_keeps_range Q QFloat.ops unit Qsub_red Qabs_red
           speed_config state_speed5 30%Q QFloat_order_laws);
    vm_compute; reflexivity.
Defined.

Lemma speedControl_direction_witness :
  (not_above (mXycarMinSpeed speed_config)
     (mXycarSpeed (speedControl Qsub_red Qabs_red speed_config state_speed5 30%Q)) /\
   (not_above (mXycarMinSpeed speed_config) (mXycarSpeed state_speed5) ->
    not_above
      (mXycarSpeed (speedControl Qsub_red Qabs_red speed_config state_speed5 30%Q))
      (mXycarSpeed state_speed5))) /\
  (not_above
     (mXycarSpeed (speedControl Qsub_red Qabs_red speed_config state_speed5 3%Q))
     (mXycarMaxSpeed speed_config) /\
   (not_above (mXycarSpeed state_speed5) (mXycarMaxSpeed speed_config) ->
    not_above (mXycarSpeed state_speed5)
      (mXycarSpeed (speedControl Qsub_red Qabs_red speed_config state_speed5 3%Q)))).
Proof.
  split.
  - apply (@speedControl_direction Q QFloat.ops unit Qsub_red Qabs_red
             speed_config state_speed5 30%Q QFloat_order_laws);
      vm_compute; reflexivity.
  - apply (@speedControl_direction Q QFloat.ops unit Qsub_red Qabs_red
             speed_config state_speed5 3%Q QFloat_order_laws);
      vm_compute; reflexivity.
Defined.

Example speedControl_examples :
  mXycarSpeed (speedControl Qsub_red Qabs_red speed_config state_speed5 30%Q)
    = 4%Q /\
  mXycarSpeed (speedControl Qsub_red Qabs_red speed_config state_speed5 (-30)%Q)
    = 4%Q /\
  mXycarSpeed (speedControl Qsub_red Qabs_red speed_config state_speed5 3%Q)
    = (11 # 2)%Q /\
  mXycarSpeed (speedControl Qsub_red Qabs_red speed_config
                 (mkState [] tt (5 # 2)%Q) 30%Q) = 2%Q /\
  mXycarSpeed (speedControl Qsub_red Qabs_red speed_config
                 (mkState [] tt (39 # 4)%Q) 3%Q) = 10%Q.
Proof. vm_compute. repeat split. Qed.

Lemma zero22_wf : mat_wf zero22.
Proof.
  unfold mat_wf. simpl. repeat split; try lia. repeat constructor.
Qed.

Lemma fill_camera_matrix_copies_witness :
  (exists m',
     fill_camera_matrix zero22 data33 = Done m' /\
     mat_rows m' = mat_rows zero22 /\ mat_cols m' = mat_cols zero22 /\
     forall i j, i < Z.to_nat (mat_rows zero22) ->
       j < Z.to_nat (mat_cols zero22) ->
       mat_get m' i j = entry data33 i j) /\
  fill_camera_matrix zero22 data_short = OutOfBounds.
Proof.
  split.
  - apply (fill_camera_matrix_copies data33 zero22_wf).
    intros [| [| i]] [| [| j]] Hi Hj; simpl in *; try lia; discriminate.
  - apply (fill_camera_matrix_copies data_short zero22_wf).
    exists 1, 1. simpl. repeat split; lia.
Defined.

Example fill_camera_matrix_data33 :
  fill_camera_matrix zero22 data33 = Done (mkMat 2 2 [ [1; 2]; [4; 5] ]%Q).
Proof. vm_compute. reflexivity. Qed.
